(** * Gameday diary: the diary data hooks of [src/hooks/useGameLogs.ts]

    A shallow embedding of the input validator, of the four data hooks
    (list, create, update, delete) and of the optimistic delete protocol,
    together with the properties the specification states about them. *)

From Stdlib Require Import ZArith NArith List Bool Lia.
From stdpp Require Import gmap strings list fin_maps sorting.

Local Open Scope Z_scope.

(* ===================================================================== *)
(** ** JavaScript values                                                   *)
(* ===================================================================== *)

Module Js.

(** A JavaScript string is a sequence of UTF-16 code units; [length],
    [trim] and [slice] all count code units. *)
Abbreviation jsstring := (list N).

(** String literals of the source, all of them ASCII. *)
Definition lit (s : string) : jsstring :=
  List.map Ascii.N_of_ascii (String.list_ascii_of_string s).

(** A JavaScript number: NaN, an infinity, or the finite value
    [m * 2 ^ e].  The hooks never compute with numbers, they only test
    them, so no rounding is involved. *)
Inductive JsNumber :=
| NumNaN
| NumInf (negative : bool)
| NumFinite (m e : Z).

(** The values that can sit in a field of a candidate entry. *)
Inductive JsVal :=
| VUndefined
| VNull
| VBool (b : bool)
| VNum (n : JsNumber)
| VStr (s : jsstring).

#[global] Instance JsNumber_eq_dec : EqDecision JsNumber.
Proof. solve_decision. Defined.
#[global] Instance JsVal_eq_dec : EqDecision JsVal.
Proof. solve_decision. Defined.

(** A plain object: property name to value.  Reading a property that is
    not there yields [undefined]. *)
Abbreviation Obj := (gmap string JsVal).

Definition getProp (o : Obj) (k : string) : JsVal :=
  default VUndefined (o !! k).

(** [m * 2 ^ e = 0] *)
Definition num_is_zero (n : JsNumber) : bool :=
  match n with
  | NumFinite m _ => m =? 0
  | _ => false
  end.

(** ToBoolean: the operand of [!x], [x || y] and [if (x)]. *)
Definition truthy (v : JsVal) : bool :=
  match v with
  | VUndefined | VNull => false
  | VBool b => b
  | VNum NumNaN => false
  | VNum n => negb (num_is_zero n)
  | VStr [] => false
  | VStr (_ :: _) => true
  end.

(** [v === s] for a string [s]. *)
Definition strictEqStr (v : JsVal) (s : jsstring) : bool :=
  match v with
  | VStr t => bool_decide (t = s)
  | _ => false
  end.

(** [arr.includes(v)] for an array of strings. *)
Definition includes (arr : list jsstring) (v : JsVal) : bool :=
  existsb (strictEqStr v) arr.

(** [Number.isInteger]: finite and without a fractional part. *)
Definition num_isInteger (n : JsNumber) : bool :=
  match n with
  | NumFinite m e => if 0 <=? e then true else m mod 2 ^ (- e) =? 0
  | _ => false
  end.

(** [n < k] and [n > k] for an integer literal [k]. *)
Definition num_lt (n : JsNumber) (k : Z) : bool :=
  match n with
  | NumNaN => false
  | NumInf negative => negative
  | NumFinite m e => if 0 <=? e then m * 2 ^ e <? k else m <? k * 2 ^ (- e)
  end.

Definition num_gt (n : JsNumber) (k : Z) : bool :=
  match n with
  | NumNaN => false
  | NumInf negative => negb negative
  | NumFinite m e => if 0 <=? e then k <? m * 2 ^ e else k * 2 ^ (- e) <? m
  end.

(** White space and line terminators, the code units [trim] strips. *)
Definition isWhiteSpace (c : N) : bool :=
  ((9 <=? c) && (c <=? 13) || (c =? 32) || (c =? 160) || (c =? 5760)
   || (8192 <=? c) && (c <=? 8202) || (c =? 8232) || (c =? 8233)
   || (c =? 8239) || (c =? 8287) || (c =? 12288) || (c =? 65279))%N.

Fixpoint trimStart (s : jsstring) : jsstring :=
  match s with
  | c :: s' => if isWhiteSpace c then trimStart s' else s
  | [] => []
  end.

Definition trimEnd (s : jsstring) : jsstring :=
  reverse (trimStart (reverse s)).

Definition trim (s : jsstring) : jsstring := trimEnd (trimStart s).

(** [s.slice(0, n)] for a non-negative [n]. *)
Definition slice0 (n : nat) (s : jsstring) : jsstring := take n s.

(** What a call can throw. *)
Inductive JsError :=
| Error (message : string)          (* new Error(message) *)
| TypeError                         (* calling a method a value lacks *)
| RemoteError (detail : jsstring).  (* the error object of a response *)

Inductive Result (A : Type) :=
| Ok (a : A)
| Throw (e : JsError).
Arguments Ok {A} a.
Arguments Throw {A} e.

Definition bindR {A B} (r : Result A) (k : A -> Result B) : Result B :=
  match r with
  | Ok a => k a
  | Throw e => Throw e
  end.

Definition isOk {A} (r : Result A) : bool :=
  match r with
  | Ok _ => true
  | Throw _ => false
  end.

End Js.
Import Js.

Notation "x <-! r ; k" := (bindR r (fun x => k))
  (at level 100, r at next level, right associativity).

(* ===================================================================== *)
(** ** The input validator                                                 *)
(* ===================================================================== *)

Definition attended : jsstring := lit "attended".
Definition watched : jsstring := lit "watched".

Definition msg_required : string := "Game ID and mode are required".
Definition dq : string := String (Ascii.ascii_of_nat 34) EmptyString.
Definition msg_mode : string :=
  "Invalid mode. Must be " +:+ dq +:+ "attended" +:+ dq +:+ " or "
  +:+ dq +:+ "watched" +:+ dq.
Definition msg_rating : string := "Rating must be an integer between 1 and 5".

(** [v?.trim().slice(0, cap) || null]: the optional chain stops at
    [undefined] and [null]; a boolean or a number has no [trim] to call. *)
Definition sanitizeText (cap : nat) (v : JsVal) : Result JsVal :=
  match v with
  | VUndefined | VNull => Ok VNull
  | VStr s =>
      let t := slice0 cap (trim s) in
      Ok (if truthy (VStr t) then VStr t else VNull)
  | VBool _ | VNum _ => Throw TypeError
  end.

(** The rating check: for a rating that is neither [undefined] nor
    [null], [!Number.isInteger(rating) || rating < 1 || rating > 5].
    [Number.isInteger] is false of every value that is not a number, so
    the comparisons are only ever reached with a number. *)
Definition ratingRejected (rating : JsVal) : bool :=
  match rating with
  | VUndefined | VNull => false
  | VNum n => negb (num_isInteger n) || num_lt n 1 || num_gt n 5
  | VBool _ | VStr _ => true
  end.

Definition validateGameLogInput (gameLog : Obj) : Result Obj :=
  if negb (truthy (getProp gameLog "game_id"))
     || negb (truthy (getProp gameLog "mode"))
  then Throw (Error msg_required)
  else if negb (includes [attended; watched] (getProp gameLog "mode"))
  then Throw (Error msg_mode)
  else if ratingRejected (getProp gameLog "rating")
  then Throw (Error msg_rating)
  else
    company <-! sanitizeText 255 (getProp gameLog "company");
    notes <-! sanitizeText 1000 (getProp gameLog "notes");
    rooted_for <-! sanitizeText 100 (getProp gameLog "rooted_for");
    Ok (<["rooted_for" := rooted_for]>
          (<["notes" := notes]> (<["company" := company]> gameLog))).

(* ===================================================================== *)
(** ** The remote store and the session                                    *)
(* ===================================================================== *)

(** The authenticated identity, [user.id]. *)
Record User := { uid : jsstring }.

(** A row of the table [user_game_logs]. *)
Record GameLogRow := {
  log_id : jsstring;
  log_user_id : jsstring;
  log_game_id : jsstring;
  log_mode : jsstring;
  log_company : option jsstring;
  log_rating : option Z;
  log_rooted_for : option jsstring;
  log_notes : option jsstring;
  log_created_at : Z;
  log_updated_at : Z
}.

#[global] Instance GameLogRow_eq_dec : EqDecision GameLogRow.
Proof. solve_decision. Defined.

Definition table_logs : string := "user_game_logs".

(** The calls the hooks build with the query builder:
    [from(t).select(c).eq(..).order(col, {ascending})], [from(t).insert(row)],
    [from(t).update(fields).eq(..).eq(..)] and [from(t).delete().eq(..).eq(..)]. *)
Inductive Request :=
| Select (table columns : string) (eqs : list (string * JsVal))
         (orderBy : string) (ascending : bool)
| Insert (table : string) (row : Obj)
| Update (table : string) (fields : Obj) (eqs : list (string * JsVal))
| Delete (table : string) (eqs : list (string * JsVal)).

Inductive Payload :=
| PNull
| PRow (r : GameLogRow)
| PRows (rs : list GameLogRow).

(** The [{ data, error }] pair every call resolves to. *)
Record Response := { resp_data : Payload; resp_error : option jsstring }.

Definition Remote : Type := Request -> Response.

(** Code that talks to the remote store: it reads the answers of the
    store and appends every call it issues to the trace. *)
Definition Net (A : Type) : Type :=
  Remote -> list Request -> Result A * list Request.

Definition ret {A} (a : A) : Net A := fun _ tr => (Ok a, tr).
Definition throw {A} (e : JsError) : Net A := fun _ tr => (Throw e, tr).
Definition bind {A B} (m : Net A) (k : A -> Net B) : Net B :=
  fun remote tr =>
    match m remote tr with
    | (Ok a, tr') => k a remote tr'
    | (Throw e, tr') => (Throw e, tr')
    end.
Definition call (req : Request) : Net Response :=
  fun remote tr => (Ok (remote req), tr ++ [req]).
Definition liftR {A} (r : Result A) : Net A := fun _ tr => (r, tr).

Notation "x <- m ;; k" := (bind m (fun x => k))
  (at level 100, m at next level, right associativity).

(** [if (error) throw error; return data;] *)
Definition unwrap (resp : Response) : Net Payload :=
  match resp_error resp with
  | Some e => throw (RemoteError e)
  | None => ret (resp_data resp)
  end.

(** Modelled from the spec: the remote store is an external collaborator,
    of which the spec gives [select(table, filter, order) -> rows]: the
    rows that satisfy every equality of the filter, in the requested
    order.  [fault] is a failure of the store or of the network. *)
Record Store := { rows : list GameLogRow; fault : option jsstring }.

Definition column (r : GameLogRow) (c : string) : JsVal :=
  if String.eqb c "id" then VStr (log_id r)
  else if String.eqb c "user_id" then VStr (log_user_id r)
  else if String.eqb c "game_id" then VStr (log_game_id r)
  else if String.eqb c "mode" then VStr (log_mode r)
  else VUndefined.

Definition satisfies (eqs : list (string * JsVal)) (r : GameLogRow) : bool :=
  forallb (fun cv => bool_decide (column r cv.1 = cv.2)) eqs.

Definition sortKey (c : string) (r : GameLogRow) : Z :=
  if String.eqb c "created_at" then log_created_at r
  else if String.eqb c "updated_at" then log_updated_at r
  else 0.

Definition inOrder (c : string) (ascending : bool) (r1 r2 : GameLogRow) : Prop :=
  if ascending then sortKey c r1 <= sortKey c r2
  else sortKey c r2 <= sortKey c r1.

#[global] Instance inOrder_dec c asc r1 r2 : Decision (inOrder c asc r1 r2).
Proof. unfold inOrder. destruct asc; apply _. Defined.

Definition storeSelect (st : Store) (eqs : list (string * JsVal))
    (c : string) (ascending : bool) : list GameLogRow :=
  merge_sort (inOrder c ascending) (List.filter (satisfies eqs) (rows st)).

(** A remote whose reads are answered from the store [st]; the answers
    to writes are left to [writes]. *)
Definition storeRemote (st : Store) (writes : Remote) : Remote :=
  fun req =>
    match req with
    | Select _ _ eqs c asc =>
        match fault st with
        | Some e => {| resp_data := PNull; resp_error := Some e |}
        | None => {| resp_data := PRows (storeSelect st eqs c asc);
                     resp_error := None |}
        end
    | _ => writes req
    end.

(* ===================================================================== *)
(** ** The query cache                                                     *)
(* ===================================================================== *)

(** Modelled from the spec: the logged-game view-model, a game record
    joined with its owning diary entry; the hook that builds it
    ([useLoggedGames]) is not among the sources.  [lg_id] is whatever the
    property [id] of the view-model holds. *)
Record LoggedGame := {
  lg_game_id : jsstring;
  lg_id : JsVal;
  logData : option GameLogRow
}.

(** The elements of the cached arrays, typed [any] in the source. *)
Inductive CacheItem :=
| ItemLog (r : GameLogRow)
| ItemGame (g : LoggedGame).

(** [x.id] *)
Definition item_id (x : CacheItem) : JsVal :=
  match x with
  | ItemLog r => VStr (log_id r)
  | ItemGame g => lg_id g
  end.

(** [x.logData?.id] *)
Definition item_logData_id (x : CacheItem) : JsVal :=
  match x with
  | ItemLog _ => VUndefined
  | ItemGame g =>
      match logData g with
      | Some r => VStr (log_id r)
      | None => VUndefined
      end
  end.

(** Query keys are arrays: a scope name, the user id ([user?.id], which
    is [undefined] without a session) and, for logged games, the filter
    parameters. *)
Inductive KeyPart :=
| KStr (s : jsstring)
| KUndefined
| KFilters (f : gmap string jsstring).

#[global] Instance KeyPart_eq_dec : EqDecision KeyPart.
Proof. solve_decision. Defined.

Definition KeyPart_to_sum (k : KeyPart)
    : jsstring + (unit + gmap string jsstring) :=
  match k with
  | KStr s => inl s
  | KUndefined => inr (inl tt)
  | KFilters f => inr (inr f)
  end.

Definition KeyPart_of_sum (x : jsstring + (unit + gmap string jsstring))
    : KeyPart :=
  match x with
  | inl s => KStr s
  | inr (inl _) => KUndefined
  | inr (inr f) => KFilters f
  end.

#[global] Instance KeyPart_countable : Countable KeyPart :=
  inj_countable' KeyPart_to_sum KeyPart_of_sum
    (fun k => match k with
              | KStr _ | KUndefined | KFilters _ => eq_refl
              end).

Abbreviation QueryKey := (list KeyPart).

Record QueryState := {
  data : option (list CacheItem);   (* [undefined] is [None] *)
  isInvalidated : bool;
  isFetching : bool;
  isActive : bool                   (* has an enabled observer *)
}.

Abbreviation QueryCache := (gmap (list KeyPart) QueryState).

(** Modelled from the spec: the cache layer is an external collaborator
    (the query library), of which the spec gives [read(key)],
    [invalidate(keyPrefix)], [patch(key, updater)] and
    [cancelInFlight(keyPrefix)]; the definitions below follow the
    documented behaviour of the library's client. *)
Definition keyMatches (partial key : QueryKey) : bool :=
  bool_decide (partial `prefix_of` key).

Definition getQueryData (key : QueryKey) (cache : QueryCache)
    : option (list CacheItem) :=
  cache !! key ≫= data.

Definition freshQuery : QueryState :=
  {| data := None; isInvalidated := false; isFetching := false; isActive := false |}.

Definition setData (d : list CacheItem) (q : QueryState) : QueryState :=
  {| data := Some d; isInvalidated := false;
     isFetching := isFetching q; isActive := isActive q |}.

(** [setQueryData(key, updater)]: an updater that returns [undefined]
    leaves the cache alone; any other result is stored, building the
    query when the key has none. *)
Definition setQueryData (key : QueryKey)
    (updater : option (list CacheItem) -> option (list CacheItem))
    (cache : QueryCache) : QueryCache :=
  match updater (getQueryData key cache) with
  | None => cache
  | Some d => <[key := setData d (default freshQuery (cache !! key))]> cache
  end.

(** What [setQueryData key updater] leaves under [key]. *)
Definition patched (updater : option (list CacheItem) -> option (list CacheItem))
    (cache : QueryCache) (key : QueryKey) : option QueryState :=
  match updater (getQueryData key cache) with
  | Some d => Some (setData d (default freshQuery (cache !! key)))
  | None => cache !! key
  end.

Definition findAll (partial : QueryKey) (cache : QueryCache)
    : list (QueryKey * QueryState) :=
  List.filter (fun kq => keyMatches partial kq.1) (map_to_list cache).

Definition updateMatching (partial : QueryKey) (f : QueryState -> QueryState)
    (cache : QueryCache) : QueryCache :=
  map_imap (fun k q => Some (if keyMatches partial k then f q else q)) cache.

Definition cancelQueries (partial : QueryKey) (cache : QueryCache) : QueryCache :=
  updateMatching partial
    (fun q => {| data := data q; isInvalidated := isInvalidated q;
                 isFetching := false; isActive := isActive q |}) cache.

(** Marks every matching query stale and refetches the active ones. *)
Definition invalidateQueries (partial : QueryKey) (cache : QueryCache) : QueryCache :=
  updateMatching partial
    (fun q => {| data := data q; isInvalidated := true;
                 isFetching := isFetching q || isActive q;
                 isActive := isActive q |}) cache.

(** Modelled from the spec: the life cycle of a mutation, which the
    mutation library drives: [onMutate], then the mutation function, then
    [onSuccess] or [onError], then [onSettled] in either case. *)
Record MutationOptions (V R C : Type) := MkMutationOptions {
  mutationFn : V -> Net R;
  onMutate : V -> QueryCache -> C * QueryCache;
  onSuccess : R -> V -> C -> QueryCache -> QueryCache;
  onError : JsError -> V -> option C -> QueryCache -> QueryCache;
  onSettled : QueryCache -> QueryCache
}.
Arguments mutationFn {V R C}.
Arguments onMutate {V R C}.
Arguments onSuccess {V R C}.
Arguments onError {V R C}.
Arguments onSettled {V R C}.

Definition mutate {V R C} (opts : MutationOptions V R C) (variables : V)
    (remote : Remote) (cache : QueryCache) (tr : list Request)
    : Result R * QueryCache * list Request :=
  let (context, cache1) := onMutate opts variables cache in
  match mutationFn opts variables remote tr with
  | (Ok r, tr') =>
      (Ok r, onSettled opts (onSuccess opts r variables context cache1), tr')
  | (Throw e, tr') =>
      (Throw e, onSettled opts (onError opts e variables (Some context) cache1), tr')
  end.

Definition key_game_logs : QueryKey := [KStr (lit "game-logs")].
Definition key_logged_games : QueryKey := [KStr (lit "logged-games")].

(** [user?.id] as a part of a key *)
Definition userIdPart (user : option User) : KeyPart :=
  match user with
  | Some u => KStr (uid u)
  | None => KUndefined
  end.

(* ===================================================================== *)
(** ** The hooks: list, create, update                                     *)
(* ===================================================================== *)

Definition msg_auth_add : string := "Must be authenticated to add game logs".
Definition msg_auth_update : string := "Must be authenticated to update game logs".
Definition msg_auth_delete : string := "Must be authenticated to delete game logs".
Definition msg_id_update : string := "Game log ID is required for updates".
Definition msg_id_delete : string := "Game log ID is required for deletion".

Module useGameLogs.

Definition queryFn (user : option User) : Net Payload :=
  match user with
  | None => ret (PRows [])
  | Some u =>
      resp <- call (Select table_logs "*" [("user_id", VStr (uid u))]
                      "created_at" false);;
      unwrap resp
  end.

(** [enabled: !!user] *)
Definition enabled (user : option User) : bool :=
  match user with Some _ => true | None => false end.

End useGameLogs.

Module useAddGameLog.

Definition mutationFn (user : option User) (gameLog : Obj) : Net Payload :=
  match user with
  | None => throw (Error msg_auth_add)
  | Some u =>
      validatedGameLog <- liftR (validateGameLogInput gameLog);;
      resp <- call (Insert table_logs
                      (<["user_id" := VStr (uid u)]> validatedGameLog));;
      unwrap resp
  end.

(** [onSuccess]: the cached entry list is invalidated. *)
Definition onSuccess (cache : QueryCache) : QueryCache :=
  invalidateQueries key_game_logs cache.

Definition options (user : option User) : MutationOptions Obj Payload unit :=
  MkMutationOptions _ _ _
    (mutationFn user) (fun _ cache => (tt, cache)) (fun _ _ _ => onSuccess)
    (fun _ _ _ cache => cache) (fun cache => cache).

End useAddGameLog.

Module useUpdateGameLog.

(** [now] is what [new Date().toISOString()] reads off the clock. *)
Definition mutationFn (now : jsstring) (user : option User) (gameLog : Obj)
    : Net Payload :=
  match user with
  | None => throw (Error msg_auth_update)
  | Some u =>
      if negb (truthy (getProp gameLog "id"))
      then throw (Error msg_id_update)
      else
        validatedGameLog <-
          liftR (validateGameLogInput
                   (<["game_id" := VStr (lit "temp")]> gameLog));;
        resp <- call (Update table_logs
                        (<["updated_at" := VStr now]>
                        (<["notes" := getProp validatedGameLog "notes"]>
                        (<["rooted_for" := getProp validatedGameLog "rooted_for"]>
                        (<["rating" := getProp validatedGameLog "rating"]>
                        (<["company" := getProp validatedGameLog "company"]>
                        (<["mode" := getProp validatedGameLog "mode"]> ∅))))))
                        [("id", getProp gameLog "id");
                         ("user_id", VStr (uid u))]);;
        unwrap resp
  end.

Definition onSuccess (cache : QueryCache) : QueryCache :=
  invalidateQueries key_game_logs cache.

Definition options (now : jsstring) (user : option User)
    : MutationOptions Obj Payload unit :=
  MkMutationOptions _ _ _
    (mutationFn now user) (fun _ cache => (tt, cache)) (fun _ _ _ => onSuccess)
    (fun _ _ _ cache => cache) (fun cache => cache).

End useUpdateGameLog.

(* ===================================================================== *)
(** ** The delete hook and its optimistic protocol                         *)
(* ===================================================================== *)

Module useDeleteGameLog.

Record Context := {
  previousGameLogs : option (list CacheItem);
  previousLoggedGames : option (list CacheItem)
}.

Definition mutationFn (user : option User) (gameLogId : jsstring) : Net jsstring :=
  match user with
  | None => throw (Error msg_auth_delete)
  | Some u =>
      if negb (truthy (VStr gameLogId))
      then throw (Error msg_id_delete)
      else
        resp <- call (Delete table_logs
                        [("id", VStr gameLogId); ("user_id", VStr (uid u))]);;
        match resp_error resp with
        | Some e => throw (RemoteError e)
        | None => ret gameLogId
        end
  end.

(** [old ? old.filter(log => log.id !== gameLogId) : []] *)
Definition dropLog (gameLogId : jsstring) (old : option (list CacheItem))
    : option (list CacheItem) :=
  Some (match old with
        | Some l => List.filter (fun log => negb (strictEqStr (item_id log) gameLogId)) l
        | None => []
        end).

(** [old ? old.filter(game => game.logData?.id !== gameLogId) : []] *)
Definition dropLoggedGame (gameLogId : jsstring) (old : option (list CacheItem))
    : option (list CacheItem) :=
  Some (match old with
        | Some l =>
            List.filter
              (fun game => negb (strictEqStr (item_logData_id game) gameLogId)) l
        | None => []
        end).

Definition onMutate (user : option User) (gameLogId : jsstring)
    (cache : QueryCache) : Context * QueryCache :=
  let cache := cancelQueries key_game_logs cache in
  let cache := cancelQueries key_logged_games cache in
  let previousGameLogs :=
    getQueryData (key_game_logs ++ [userIdPart user]) cache in
  let previousLoggedGames :=
    getQueryData (key_logged_games ++ [userIdPart user]) cache in
  let cache :=
    setQueryData (key_game_logs ++ [userIdPart user]) (dropLog gameLogId) cache in
  let cache :=
    foldl (fun c query => setQueryData query.1 (dropLoggedGame gameLogId) c)
          cache (findAll key_logged_games cache) in
  ({| previousGameLogs := previousGameLogs;
      previousLoggedGames := previousLoggedGames |}, cache).

(** [if (context?.previousGameLogs)] and [if (context?.previousLoggedGames)]:
    a snapshot is [undefined] or an array, and every array, the empty one
    included, passes the test. *)
Definition onError (user : option User) (err : JsError) (gameLogId : jsstring)
    (context : option Context) (cache : QueryCache) : QueryCache :=
  let cache :=
    match context ≫= previousGameLogs with
    | Some previous =>
        setQueryData (key_game_logs ++ [userIdPart user])
                     (fun _ => Some previous) cache
    | None => cache
    end in
  match context ≫= previousLoggedGames with
  | Some previous =>
      setQueryData (key_logged_games ++ [userIdPart user])
                   (fun _ => Some previous) cache
  | None => cache
  end.

Definition onSettled (cache : QueryCache) : QueryCache :=
  invalidateQueries key_logged_games (invalidateQueries key_game_logs cache).

Definition options (user : option User)
    : MutationOptions jsstring jsstring Context :=
  MkMutationOptions _ _ _
    (mutationFn user) (onMutate user) (fun _ _ _ cache => cache)
    (onError user) onSettled.

End useDeleteGameLog.

(* ===================================================================== *)
(** ** Sample data: the scenarios of the specification                     *)
(* ===================================================================== *)

Definition userU : User := {| uid := lit "U" |}.

(** [{game_id: 'G1', mode: 'attended', company: '  Alex  '}] *)
Definition entryAlex : Obj :=
  <["company" := VStr (lit "  Alex  ")]>
    (<["mode" := VStr attended]> (<["game_id" := VStr (lit "G1")]> ∅)).

(** The same entry with a rating of 3. *)
Definition entryRated : Obj := <["rating" := VNum (NumFinite 3 0)]> entryAlex.

(** The same entry with a rating of 6. *)
Definition entrySix : Obj := <["rating" := VNum (NumFinite 6 0)]> entryAlex.

(** 101 code units: 99 letters, a space and a letter. *)
Definition textSpaceAtCap : jsstring := replicate 99 97%N ++ [32%N; 98%N].

(** 203 code units: 200 spaces and three letters. *)
Definition textPadded : jsstring := replicate 200 32%N ++ lit "abc".

(** Three spaces. *)
Definition textBlank : jsstring := replicate 3 32%N.

Definition entrySpaceAtCap : Obj := <["rooted_for" := VStr textSpaceAtCap]> entryAlex.
Definition entryPadded : Obj := <["rooted_for" := VStr textPadded]> entryAlex.
Definition entryBlank : Obj := <["notes" := VStr textBlank]> entryAlex.

Definition sampleRow (i u : string) (t : Z) : GameLogRow :=
  {| log_id := lit i; log_user_id := lit u; log_game_id := lit "G1";
     log_mode := attended; log_company := None; log_rating := None;
     log_rooted_for := None; log_notes := None;
     log_created_at := t; log_updated_at := t |}.

(** Entries [E] and [F] of user U, and an entry of somebody else. *)
Definition rowE : GameLogRow := sampleRow "E" "U" 10.
Definition rowF : GameLogRow := sampleRow "F" "U" 20.
Definition rowOther : GameLogRow := sampleRow "X" "V" 15.

Definition sampleStore : Store :=
  {| rows := [rowE; rowOther; rowF]; fault := None |}.

(** A remote that accepts every write. *)
Definition acceptAll : Remote :=
  fun _ => {| resp_data := PNull; resp_error := None |}.

(** A remote that refuses every call. *)
Definition refuseAll : Remote :=
  fun _ => {| resp_data := PNull; resp_error := Some (lit "refused") |}.

(** An edit of entry [E] that also carries a [game_id] and a [user_id]. *)
Definition entryEdit : Obj :=
  <["id" := VStr (lit "E")]> (<["user_id" := VStr (lit "V")]> entryAlex).

Definition sampleNow : jsstring := lit "2024-05-01T12:00:00.000Z".

(** The fields an update may write. *)
Definition mutableFields : gset string :=
  {[ "mode"; "company"; "rating"; "rooted_for"; "notes"; "updated_at" ]}.

(** The slot of the cached entry list, [['game-logs', user?.id]], and the
    slot [['logged-games', user?.id]]. *)
Definition entryListKey (user : option User) : QueryKey :=
  key_game_logs ++ [userIdPart user].
Definition loggedGamesKey (user : option User) : QueryKey :=
  key_logged_games ++ [userIdPart user].

Definition itemE : CacheItem := ItemLog rowE.
Definition itemF : CacheItem := ItemLog rowF.

(** The logged games that entries [E] and [F] are linked to. *)
Definition gameE : CacheItem :=
  ItemGame {| lg_game_id := lit "G1"; lg_id := VUndefined; logData := Some rowE |}.
Definition gameF : CacheItem :=
  ItemGame {| lg_game_id := lit "G2"; lg_id := VUndefined; logData := Some rowF |}.

Definition sampleFilters : gmap string jsstring := {[ "mode" := lit "attended" ]}.

(** [['game-logs', 'U']], [['logged-games', 'U']] and
    [['logged-games', 'U', filters]]. *)
Definition keyLogsU : QueryKey := key_game_logs ++ [KStr (lit "U")].
Definition keyGamesU : QueryKey := key_logged_games ++ [KStr (lit "U")].
Definition keyGamesFiltered : QueryKey :=
  key_logged_games ++ [KStr (lit "U"); KFilters sampleFilters].

Definition loaded (d : list CacheItem) : QueryState :=
  {| data := Some d; isInvalidated := false; isFetching := false; isActive := true |}.

Definition loading : QueryState :=
  {| data := None; isInvalidated := false; isFetching := true; isActive := true |}.

(** The view of user U: the entry list holds [E, F] and a filtered
    logged-games query holds the two games. *)
Definition sampleCache : QueryCache :=
  <[keyGamesFiltered := loaded [gameE; gameF]]>
    (<[keyLogsU := loaded [itemE; itemF]]> ∅).

(** The same view before anything has loaded. *)
Definition loadingCache : QueryCache :=
  <[keyGamesFiltered := loading]> (<[keyLogsU := loading]> ∅).

(** The order of the list operation. *)
Definition newerFirst (r1 r2 : GameLogRow) : Prop :=
  log_created_at r2 <= log_created_at r1.

(* ===================================================================== *)
(** ** The vocabulary of the specification                                 *)
(* ===================================================================== *)

Definition nullish (v : JsVal) : Prop := v = VUndefined \/ v = VNull.

(** A required field is missing when it is absent or empty. *)
Definition missing (v : JsVal) : Prop := nullish v \/ v = VStr [].

Definition stringOrNullish (v : JsVal) : Prop := nullish v \/ exists s, v = VStr s.
Definition numberOrNullish (v : JsVal) : Prop := nullish v \/ exists n, v = VNum n.

(** The parameter type the validator declares for a candidate entry. *)
Definition hasDeclaredType (g : Obj) : Prop :=
  stringOrNullish (getProp g "game_id")
  /\ stringOrNullish (getProp g "mode")
  /\ stringOrNullish (getProp g "company")
  /\ numberOrNullish (getProp g "rating")
  /\ stringOrNullish (getProp g "rooted_for")
  /\ stringOrNullish (getProp g "notes").

(** The number [n] is the integer [z]. *)
Definition denotes (n : JsNumber) (z : Z) : Prop :=
  match n with
  | NumFinite m e => if 0 <=? e then m * 2 ^ e = z else m = z * 2 ^ (- e)
  | _ => False
  end.

Definition integerBetween (lo hi : Z) (v : JsVal) : Prop :=
  exists n z, v = VNum n /\ denotes n z /\ lo <= z <= hi.

Definition modeAllowed (v : JsVal) : Prop := v = VStr attended \/ v = VStr watched.

(** The conditions under which the specification has the validator fail. *)
Definition rejected (g : Obj) : Prop :=
  missing (getProp g "game_id")
  \/ missing (getProp g "mode")
  \/ ~ modeAllowed (getProp g "mode")
  \/ (~ nullish (getProp g "rating")
      /\ ~ integerBetween 1 5 (getProp g "rating")).

Definition isValidationError (e : JsError) : Prop :=
  e = Error msg_required \/ e = Error msg_mode \/ e = Error msg_rating.

Definition isAuthenticationError (e : JsError) : Prop :=
  e = Error msg_auth_add \/ e = Error msg_auth_update \/ e = Error msg_auth_delete.

Definition noLeadingWhiteSpace (s : jsstring) : Prop :=
  forall c t, s = c :: t -> isWhiteSpace c = false.

Definition noTrailingWhiteSpace (s : jsstring) : Prop :=
  forall c t, s = t ++ [c] -> isWhiteSpace c = false.

Definition allWhiteSpace (s : jsstring) : Prop :=
  Forall (fun c => isWhiteSpace c = true) s.

(** The free-text fields and their caps. *)
Definition textFields : list (string * nat) :=
  [("company", 255%nat); ("notes", 1000%nat); ("rooted_for", 100%nat)].

(* ===================================================================== *)
(** ** The diary view, [src/pages/Timeline.tsx]                            *)
(* ===================================================================== *)

(** [k <= n] for an integer literal [k]. *)
Definition num_ge (n : JsNumber) (k : Z) : bool :=
  match n with
  | NumNaN => false
  | NumInf negative => negb negative
  | NumFinite m e => if 0 <=? e then k <=? m * 2 ^ e else k * 2 ^ (- e) <=? m
  end.

(** The order of two numbers; NaN is not ordered with anything. *)
Definition num_compare (a b : JsNumber) : option comparison :=
  match a, b with
  | NumNaN, _ | _, NumNaN => None
  | NumInf na, NumInf nb =>
      Some (if na then (if nb then Eq else Lt) else (if nb then Gt else Eq))
  | NumInf na, NumFinite _ _ => Some (if na then Lt else Gt)
  | NumFinite _ _, NumInf nb => Some (if nb then Gt else Lt)
  | NumFinite m1 e1, NumFinite m2 e2 =>
      let e := Z.min e1 e2 in
      Some (m1 * 2 ^ (e1 - e) ?= m2 * 2 ^ (e2 - e))
  end.

(** [a !== b] and [a > b] on numbers. *)
Definition num_strictNe (a b : JsNumber) : bool :=
  match num_compare a b with
  | Some Eq => false
  | _ => true
  end.

Definition num_gtNum (a b : JsNumber) : bool :=
  match num_compare a b with
  | Some Gt => true
  | _ => false
  end.

Module Timeline.

(** The filter state, an object of strings. *)
Definition initialFilters : gmap string jsstring :=
  <["startDate" := []]> (<["endDate" := []]> (<["league" := []]>
  (<["season" := []]> (<["playoff" := []]> (<["search" := []]>
  (<["mode" := []]> ∅)))))).

(** [setFilters(prev => ({ ...prev, [key]: value }))] *)
Definition handleFilterChange (key : string) (value : jsstring)
    (prev : gmap string jsstring) : gmap string jsstring :=
  <[key := value]> prev.

(** [setFilters({ startDate: '', ..., mode: '' })] *)
Definition handleClearFilters (prev : gmap string jsstring)
    : gmap string jsstring :=
  initialFilters.

(** [filters.name] *)
Definition filterProp (filters : gmap string jsstring) (name : string) : JsVal :=
  match filters !! name with
  | Some v => VStr v
  | None => VUndefined
  end.

(** The argument of [useLoggedGames]. *)
Definition loggedGamesParams (filters : gmap string jsstring) : Obj :=
  <["mode" := filterProp filters "mode"]>
  (<["startDate" := filterProp filters "startDate"]>
  (<["endDate" := filterProp filters "endDate"]>
  (<["league" := filterProp filters "league"]>
  (<["season" := filterProp filters "season"]>
  (<["playoff" := filterProp filters "playoff"]>
  (<["search" := filterProp filters "search"]> ∅)))))).

(** What the user does with the filter bar. *)
Inductive FilterEvent :=
| Change (key : string) (value : jsstring)
| Clear.

Definition filterStep (filters : gmap string jsstring) (ev : FilterEvent)
    : gmap string jsstring :=
  match ev with
  | Change key value => handleFilterChange key value filters
  | Clear => handleClearFilters filters
  end.

Definition filterRun (evs : list FilterEvent) : gmap string jsstring :=
  foldl filterStep initialFilters evs.

(** The names of the filter state. *)
Definition filterNames : list string :=
  ["startDate"; "endDate"; "league"; "season"; "playoff"; "search"; "mode"].

(** What [renderStarRating] renders: the text "Not rated", or five stars,
    each filled or not. *)
Inductive StarView :=
| NotRated
| Stars (filled : list bool).

(** [rating] has the declared type [number | null]. *)
Definition renderStarRating (rating : option JsNumber) : StarView :=
  match rating with
  | None => NotRated
  | Some n =>
      if negb (truthy (VNum n)) then NotRated
      else Stars (List.map (fun star => num_ge n star) [1; 2; 3; 4; 5])
  end.

(** The part of [getRootedForDisplay] that computes [winLossIndicator];
    a score is a number or [null]. *)
Definition winLossIndicator (isHomeTeam : bool)
    (homeScore awayScore : option JsNumber) : jsstring :=
  match homeScore, awayScore with
  | Some h, Some a =>
      if num_strictNe h a
      then
        let didWin := (isHomeTeam && num_gtNum h a)
                      || (negb isHomeTeam && num_gtNum a h) in
        if didWin then lit " (W)" else lit " (L)"
      else []
  | _, _ => []
  end.

(** What [getRootedForDisplay] renders: the text "No team", or a logo
    and a label. *)
Inductive RootedView :=
| NoTeam
| Team (src alt label : jsstring).

Section RootedFor.

(** The helpers of [@/utils/teamLogos], which are not among the sources,
    and the lower-casing of the platform. *)
Variable getTeamAbbreviation : jsstring -> jsstring -> jsstring.
Variable getTeamLogo : jsstring -> jsstring -> jsstring.
Variable toLowerCase : jsstring -> jsstring.

(** [rootedFor] is a string or [null]. *)
Definition getRootedForDisplay (rootedFor : option jsstring)
    (homeTeam awayTeam : jsstring) (homeScore awayScore : option JsNumber)
    : RootedView :=
  match rootedFor with
  | None => NoTeam
  | Some rooted =>
      if negb (truthy (VStr rooted)) || strictEqStr (VStr rooted) (lit "none")
      then NoTeam
      else
        let homeTeamAbbr := getTeamAbbreviation homeTeam (lit "MLB") in
        let awayTeamAbbr := getTeamAbbreviation awayTeam (lit "MLB") in
        let isHomeTeam :=
          bool_decide (toLowerCase rooted = toLowerCase homeTeam) in
        let teamAbbr := if isHomeTeam then homeTeamAbbr else awayTeamAbbr in
        Team (getTeamLogo teamAbbr (lit "MLB")) teamAbbr
             (teamAbbr ++ winLossIndicator isHomeTeam homeScore awayScore)
  end.

End RootedFor.

End Timeline.

(* ===================================================================== *)
(** ** The welcome dialog, [WelcomeModal]                                  *)
(* ===================================================================== *)

Module WelcomeModal.

Definition storageKey : string := "hasSeenWelcome".

(** The local storage of the browser and the state of the component. *)
Record State := {
  localStorage : gmap string jsstring;
  isOpen : bool
}.

(** [localStorage.getItem(key)]: the stored string, or [null]. *)
Definition getItem (storage : gmap string jsstring) (key : string) : JsVal :=
  match storage !! key with
  | Some v => VStr v
  | None => VNull
  end.

(** The component is mounted: [useState(false)], then the effect. *)
Definition mount (storage : gmap string jsstring) : State :=
  let hasSeenWelcome := getItem storage storageKey in
  {| localStorage := storage;
     isOpen := if negb (truthy hasSeenWelcome) then true else false |}.

Definition handleClose (s : State) : State :=
  {| localStorage := <[storageKey := lit "true"]> (localStorage s);
     isOpen := false |}.

(** The page is loaded, or the dialog is dismissed. *)
Inductive Event :=
| Mount
| Close.

Definition step (s : State) (ev : Event) : State :=
  match ev with
  | Mount => mount (localStorage s)
  | Close => handleClose s
  end.

Definition run (s : State) (evs : list Event) : State := foldl step s evs.

End WelcomeModal.

(** A query of another scope, [['games']], beside the sample view. *)
Definition keyGames : QueryKey := [KStr (lit "games")].
Definition sampleCacheWithGames : QueryCache :=
  <[keyGames := loaded [gameE]]> sampleCache.

(** Five stars, the first [z] of them filled. *)
Definition starsFilled (z : Z) : list bool :=
  replicate (Z.to_nat z) true ++ replicate (Z.to_nat (5 - z)) false.

(** The suffix of the rooted-for label for a team whose score compares
    as [ours] to the score of the other team. *)
Definition resultSuffix (ours : comparison) : jsstring :=
  match ours with
  | Gt => lit " (W)"
  | Lt => lit " (L)"
  | Eq => []
  end.

(* ===================================================================== *)
(** ** Properties of the validator                                         *)
(* ===================================================================== *)

Section Validator.

Implicit Types (g : Obj) (v : JsVal) (s : jsstring).

Lemma isOk_inv {A} (r : Result A) : isOk r = true -> exists a, r = Ok a.
Proof. destruct r; [eauto | discriminate]. Qed.

Lemma includes_modes v :
  includes [attended; watched] v = true <-> modeAllowed v.
Proof.
  unfold includes, modeAllowed, strictEqStr; simpl.
  destruct v as [| |b|n|s]; try (split; [discriminate | intros [?|?]; discriminate]).
  rewrite !orb_true_iff, !bool_decide_eq_true.
  split; [intros [H|[H|H]]|intros [H|H]]; try discriminate;
    [left|right|left|right; left]; congruence.
Qed.

Lemma truthy_string_or_nullish v :
  stringOrNullish v -> (truthy v = false <-> missing v).
Proof.
  intros [[->| ->]|[s ->]]; unfold missing, nullish; simpl.
  - tauto.
  - tauto.
  - destruct s; split; try tauto; try discriminate.
    intros [[?|?]|?]; discriminate.
Qed.

Lemma pow2_pos e : 0 < 2 ^ e \/ e < 0.
Proof. destruct (Z_lt_le_dec e 0); [right|left]; [done|]. by apply Z.pow_pos_nonneg. Qed.

Lemma ratingRejected_false v :
  ratingRejected v = false <-> nullish v \/ integerBetween 1 5 v.
Proof.
  unfold nullish, integerBetween.
  destruct v as [| |b|n|s]; simpl.
  - split; [tauto | done].
  - split; [tauto | done].
  - split; [discriminate|]. intros [[?|?]|(?&?&?&_)]; discriminate.
  - rewrite !orb_false_iff, negb_false_iff.
    destruct n as [|neg|m e]; simpl.
    + split; [intros [[? _] _]; discriminate|].
      intros [[?|?]|(n&z&Hn&Hd&_)]; try discriminate. by inversion Hn; subst.
    + split; [intros [[? _] _]; discriminate|].
      intros [[?|?]|(n&z&Hn&Hd&_)]; try discriminate. by inversion Hn; subst.
    + destruct (Z.leb_spec 0 e) as [He|He].
      * rewrite !Z.ltb_ge. split.
        -- intros [[_ H1] H5]. right. exists (NumFinite m e), (m * 2 ^ e).
           simpl. destruct (Z.leb_spec 0 e); [|lia]. repeat split; lia.
        -- intros [[?|?]|(n&z&Hn&Hd&Hz)]; try discriminate.
           inversion Hn; subst n. simpl in Hd.
           destruct (Z.leb_spec 0 e); [|lia]. repeat split; lia.
      * assert (Hp : 0 < 2 ^ (- e)) by (apply Z.pow_pos_nonneg; lia).
        rewrite !Z.ltb_ge, Z.eqb_eq. split.
        -- intros [[Hm H1] H5]. right.
           exists (NumFinite m e), (m / 2 ^ (- e)). simpl.
           destruct (Z.leb_spec 0 e); [lia|].
           assert (Hq : m = 2 ^ (- e) * (m / 2 ^ (- e))).
           { apply Z.div_exact; lia. }
           repeat split; [lia| |]; nia.
        -- intros [[?|?]|(n&z&Hn&Hd&Hz)]; try discriminate.
           inversion Hn; subst n. simpl in Hd.
           destruct (Z.leb_spec 0 e); [lia|]. subst m.
           repeat split; [apply Z.mod_mul; lia| |]; nia.
  - split; [discriminate|]. intros [[?|?]|(?&?&?&_)]; discriminate.
Qed.

Lemma sanitizeText_string_or_nullish cap v :
  stringOrNullish v -> exists r, sanitizeText cap v = Ok r.
Proof. intros [[->| ->]|[s ->]]; simpl; eauto. Qed.

(** What a successful validation went through. *)
Lemma validate_ok_inv g g' :
  validateGameLogInput g = Ok g' ->
  truthy (getProp g "game_id") = true
  /\ truthy (getProp g "mode") = true
  /\ includes [attended; watched] (getProp g "mode") = true
  /\ ratingRejected (getProp g "rating") = false
  /\ exists company notes rooted_for,
       sanitizeText 255 (getProp g "company") = Ok company
       /\ sanitizeText 1000 (getProp g "notes") = Ok notes
       /\ sanitizeText 100 (getProp g "rooted_for") = Ok rooted_for
       /\ g' = <["rooted_for" := rooted_for]>
                 (<["notes" := notes]> (<["company" := company]> g)).
Proof.
  unfold validateGameLogInput.
  destruct (truthy (getProp g "game_id")); [|discriminate].
  destruct (truthy (getProp g "mode")); [|discriminate]. cbn [negb orb].
  destruct (includes [attended; watched] (getProp g "mode")); [|discriminate].
  cbn [negb].
  destruct (ratingRejected (getProp g "rating")); [discriminate|].
  destruct (sanitizeText 255 (getProp g "company")) as [c|]; [|discriminate].
  destruct (sanitizeText 1000 (getProp g "notes")) as [n|]; [|discriminate].
  destruct (sanitizeText 100 (getProp g "rooted_for")) as [r|]; [|discriminate].
  cbn [bindR]. intros [= <-]. repeat split; eauto 10.
Qed.

Lemma sanitizeText_throws cap v e : sanitizeText cap v = Throw e -> e = TypeError.
Proof. destruct v; simpl; congruence. Qed.

(** A thrown error is a type error of the normalisation, or names the
    check that failed. *)
Lemma validate_throw_inv g e :
  validateGameLogInput g = Throw e ->
  (e = TypeError
   /\ truthy (getProp g "game_id") = true
   /\ truthy (getProp g "mode") = true
   /\ includes [attended; watched] (getProp g "mode") = true
   /\ ratingRejected (getProp g "rating") = false)
  \/ (e = Error msg_required
      /\ (truthy (getProp g "game_id") = false \/ truthy (getProp g "mode") = false))
  \/ (e = Error msg_mode /\ includes [attended; watched] (getProp g "mode") = false)
  \/ (e = Error msg_rating /\ ratingRejected (getProp g "rating") = true).
Proof.
  unfold validateGameLogInput.
  destruct (truthy (getProp g "game_id")) eqn:Hg; cbn [negb orb];
    [|intros [= <-]; right; left; auto].
  destruct (truthy (getProp g "mode")) eqn:Hm; cbn [negb orb];
    [|intros [= <-]; right; left; auto].
  destruct (includes [attended; watched] (getProp g "mode")) eqn:Hi; cbn [negb];
    [|intros [= <-]; right; right; left; auto].
  destruct (ratingRejected (getProp g "rating")) eqn:Hr;
    [intros [= <-]; right; right; right; auto|].
  intros H. left. repeat split; try done.
  destruct (sanitizeText 255 (getProp g "company")) as [c|e1] eqn:H1; cbn [bindR] in H.
  2: { injection H as <-. eauto using sanitizeText_throws. }
  destruct (sanitizeText 1000 (getProp g "notes")) as [n|e2] eqn:H2; cbn [bindR] in H.
  2: { injection H as <-. eauto using sanitizeText_throws. }
  destruct (sanitizeText 100 (getProp g "rooted_for")) as [r|e3] eqn:H3; cbn [bindR] in H.
  2: { injection H as <-. eauto using sanitizeText_throws. }
  discriminate.
Qed.

Lemma validate_ok_of_checks g :
  truthy (getProp g "game_id") = true ->
  truthy (getProp g "mode") = true ->
  includes [attended; watched] (getProp g "mode") = true ->
  ratingRejected (getProp g "rating") = false ->
  stringOrNullish (getProp g "company") ->
  stringOrNullish (getProp g "notes") ->
  stringOrNullish (getProp g "rooted_for") ->
  exists company notes rooted_for,
    validateGameLogInput g
    = Ok (<["rooted_for" := rooted_for]>
            (<["notes" := notes]> (<["company" := company]> g))).
Proof.
  intros Hg Hm Hi Hr Hc Hn Hf. unfold validateGameLogInput.
  rewrite Hg, Hm, Hi, Hr. cbn [negb orb].
  destruct (sanitizeText_string_or_nullish 255 _ Hc) as [c ->].
  destruct (sanitizeText_string_or_nullish 1000 _ Hn) as [n ->].
  destruct (sanitizeText_string_or_nullish 100 _ Hf) as [r ->].
  cbn [bindR]. eauto.
Qed.

(** The normalized copy differs from the candidate in the three
    free-text fields only. *)
Lemma validate_ok_other g g' k :
  validateGameLogInput g = Ok g' ->
  k <> "company" -> k <> "notes" -> k <> "rooted_for" ->
  g' !! k = g !! k.
Proof.
  intros H ? ? ?. apply validate_ok_inv in H as (_&_&_&_&c&n&r&_&_&_&->).
  by rewrite !lookup_insert_ne by done.
Qed.

Lemma validate_ok_text g g' field cap :
  validateGameLogInput g = Ok g' ->
  (field, cap) ∈ textFields ->
  exists r, sanitizeText cap (getProp g field) = Ok r /\ g' !! field = Some r.
Proof.
  intros H Hin. apply validate_ok_inv in H as (_&_&_&_&c&n&r&Hc&Hn&Hr&->).
  unfold textFields in Hin.
  repeat (apply elem_of_cons in Hin as [[= -> ->]|Hin]).
  - exists c. split; [done|].
    by rewrite !lookup_insert_ne, lookup_insert_eq by done.
  - exists n. split; [done|].
    by rewrite lookup_insert_ne, lookup_insert_eq by done.
  - exists r. split; [done|]. by rewrite lookup_insert_eq.
  - by apply elem_of_nil in Hin.
Qed.

(** *** Trimming *)

Lemma trimStart_split s :
  exists ws, s = ws ++ trimStart s /\ allWhiteSpace ws.
Proof.
  induction s as [|c s (ws & Hs & Hws)]; simpl.
  - exists []. split; [done | constructor].
  - destruct (isWhiteSpace c) eqn:Hc.
    + exists (c :: ws). split; [simpl; congruence | by constructor].
    + exists []. split; [done | constructor].
Qed.

Lemma trimStart_head s : noLeadingWhiteSpace (trimStart s).
Proof.
  induction s as [|c s IH]; simpl; [by intros ? ? [=]|].
  destruct (isWhiteSpace c) eqn:Hc; [done|]. by intros ? ? [= <- <-].
Qed.

Lemma trimEnd_split s :
  exists ws, s = trimEnd s ++ ws /\ allWhiteSpace ws.
Proof.
  unfold trimEnd. destruct (trimStart_split (reverse s)) as (ws & Hs & Hws).
  exists (reverse ws). split.
  - rewrite <- reverse_app, <- Hs. by rewrite reverse_involutive.
  - unfold allWhiteSpace. by rewrite Forall_reverse.
Qed.

Lemma trimEnd_last s : noTrailingWhiteSpace (trimEnd s).
Proof.
  unfold trimEnd. intros c t Ht.
  apply (f_equal reverse) in Ht.
  rewrite reverse_involutive, reverse_app in Ht. simpl in Ht.
  by eapply trimStart_head.
Qed.

Lemma trimEnd_head s : noLeadingWhiteSpace s -> noLeadingWhiteSpace (trimEnd s).
Proof.
  intros Hs c t Ht. destruct (trimEnd_split s) as (ws & Hsplit & _).
  rewrite Ht in Hsplit. by eapply Hs.
Qed.

Lemma trim_no_leading s : noLeadingWhiteSpace (trim s).
Proof. apply trimEnd_head, trimStart_head. Qed.

Lemma trim_no_trailing s : noTrailingWhiteSpace (trim s).
Proof. apply trimEnd_last. Qed.

Lemma trim_length s : (length (trim s) <= length s)%nat.
Proof.
  unfold trim.
  destruct (trimStart_split s) as (ws1 & H1 & _).
  destruct (trimEnd_split (trimStart s)) as (ws2 & H2 & _).
  rewrite H1 at 2. rewrite H2 at 2. rewrite !length_app. lia.
Qed.

Lemma take_no_leading n s : noLeadingWhiteSpace s -> noLeadingWhiteSpace (take n s).
Proof.
  intros Hs c t Ht. destruct n, s; try discriminate.
  simpl in Ht. injection Ht as -> _. by eapply Hs.
Qed.

(** The result of normalising a string: the kept text, or [null] when
    nothing is left of it. *)
Lemma sanitizeText_string cap s :
  sanitizeText cap (VStr s)
  = Ok (match take cap (trim s) with [] => VNull | t => VStr t end).
Proof. unfold sanitizeText, slice0. simpl. by destruct (take cap (trim s)). Qed.

(** *** The claims about the validator *)

(** C4: for a candidate entry of the declared type, the validator fails
    exactly when [game_id] is missing, or [mode] is missing, or [mode] is
    neither attended nor watched, or [rating] is present (neither
    undefined nor null) and is not an integer between 1 and 5; every
    failure is a validation error; and an entry whose rating is an integer
    between 1 and 5 (its [game_id] and [mode] being valid) is accepted
    with the rating returned unchanged. *)
Theorem validate_fails_exactly g :
  hasDeclaredType g ->
  ((exists e, validateGameLogInput g = Throw e) <-> rejected g)
  /\ (forall e, validateGameLogInput g = Throw e -> isValidationError e)
  /\ (integerBetween 1 5 (getProp g "rating") ->
      ~ missing (getProp g "game_id") ->
      modeAllowed (getProp g "mode") ->
      exists g', validateGameLogInput g = Ok g'
                 /\ getProp g' "rating" = getProp g "rating").
Proof.
  intros (Tg & Tm & Tc & Tr & Tf & Tn).
  pose proof (truthy_string_or_nullish _ Tg) as Hg.
  pose proof (truthy_string_or_nullish _ Tm) as Hm.
  pose proof (includes_modes (getProp g "mode")) as Hi.
  pose proof (ratingRejected_false (getProp g "rating")) as Hr.
  assert (Hok : ~ rejected g -> exists g',
             validateGameLogInput g = Ok g'
             /\ getProp g' "rating" = getProp g "rating").
  { intros Hnot. unfold rejected in Hnot.
    destruct (validate_ok_of_checks g) as (c & n & r & Hv); try done.
    - destruct (truthy (getProp g "game_id")); [done|]. tauto.
    - destruct (truthy (getProp g "mode")); [done|]. tauto.
    - destruct (includes [attended; watched] (getProp g "mode")); [done|].
      exfalso. apply Hnot. right; right; left. intros Hma. apply Hi in Hma. done.
    - destruct (ratingRejected (getProp g "rating")); [|done].
      exfalso. apply Hnot. right; right; right.
      split; intros H; (assert (true = false) by (apply Hr; tauto)); done.
    - eexists. split; [exact Hv|]. unfold getProp.
      by rewrite !lookup_insert_ne by done. }
  assert (Hthrow : forall e, validateGameLogInput g = Throw e ->
                             rejected g /\ isValidationError e).
  { intros e He. unfold rejected, isValidationError.
    destruct (validate_throw_inv _ _ He)
      as [(-> & H1 & H2 & H3 & H4)|[(-> & H)|[(-> & H)|(-> & H)]]].
    - exfalso. destruct Hok as (g' & Hg' & _); [|congruence].
      unfold rejected. intros [H|[H|[H|[Hp Hq]]]].
      + apply Hg in H. congruence.
      + apply Hm in H. congruence.
      + apply H, Hi, H3.
      + apply Hr in H4. tauto.
    - split; [|tauto]. destruct H as [H|H]; [left; tauto | right; left; tauto].
    - split; [|tauto]. right; right; left. intros Hma. apply Hi in Hma. congruence.
    - split; [|tauto]. right; right; right.
      split; intros Hx; (assert (true = false) by (rewrite <- H; apply Hr; tauto)); done. }
  split; [split|split].
  - intros [e He]. by destruct (Hthrow e He).
  - intros Hrej. destruct (validateGameLogInput g) as [g'|e] eqn:Hv; [|eauto].
    exfalso. apply validate_ok_inv in Hv as (H1 & H2 & H3 & H4 & _).
    destruct Hrej as [H|[H|[H|[Hp Hq]]]].
    + apply Hg in H. congruence.
    + apply Hm in H. congruence.
    + apply H, Hi, H3.
    + apply Hr in H4. tauto.
  - intros e He. by destruct (Hthrow e He).
  - intros Hint Hgid Hmode. apply Hok. intros [H|[H|[H|[Hp Hq]]]]; try tauto.
    destruct Hmode as [Hx|Hx]; rewrite Hx in H;
      destruct H as [[H|H]|H]; discriminate.
Qed.

(** The theorem at the entry with a rating of 3: it is accepted, rating
    unchanged. *)
Lemma validate_fails_exactly_witness :
  hasDeclaredType entryRated
  /\ exists g', validateGameLogInput entryRated = Ok g'
                /\ getProp g' "rating" = VNum (NumFinite 3 0).
Proof.
  assert (T : hasDeclaredType entryRated).
  { unfold hasDeclaredType, stringOrNullish, numberOrNullish, nullish.
    repeat split; vm_compute; eauto. }
  split; [exact T|].
  destruct (validate_fails_exactly entryRated T) as (_ & _ & H).
  apply H.
  - exists (NumFinite 3 0), 3. repeat split; first [lia | vm_compute; reflexivity].
  - vm_compute. intros [[H1|H1]|H1]; discriminate.
  - left. reflexivity.
Defined.

(** C5, as the code has it: when the content of a free-text field still
    exceeds the cap of the field after trimming, the normalized result is
    the first [cap] code units of the trimmed content, so its length is
    exactly the cap and it carries no leading white space; when the
    trimmed content fits the cap, the result is the trimmed content
    itself, or null if nothing is left of it. *)
Theorem long_text_is_cut_to_cap g g' field cap s :
  validateGameLogInput g = Ok g' ->
  (field, cap) ∈ textFields ->
  getProp g field = VStr s ->
  ((cap < length (trim s))%nat ->
     exists t, g' !! field = Some (VStr t)
               /\ t = take cap (trim s)
               /\ length t = cap
               /\ noLeadingWhiteSpace t)
  /\ ((length (trim s) <= cap)%nat ->
      g' !! field = Some (match trim s with [] => VNull | t => VStr t end)).
Proof.
  intros Hv Hin Hs.
  destruct (validate_ok_text _ _ _ _ Hv Hin) as (r & Hr & ->).
  rewrite Hs, sanitizeText_string in Hr. injection Hr as <-.
  assert (Hcap : (0 < cap)%nat).
  { unfold textFields in Hin.
    repeat (apply elem_of_cons in Hin as [[= -> ->]|Hin]); try lia.
    by apply elem_of_nil in Hin. }
  split.
  - intros Hlen. exists (take cap (trim s)).
    assert (Hl : length (take cap (trim s)) = cap) by (rewrite length_take; lia).
    repeat split; [|done|apply take_no_leading, trim_no_leading].
    destruct (take cap (trim s)); [simpl in Hl; lia | done].
  - intros Hlen. by rewrite take_ge by done.
Qed.

(** The theorem at the padded sample: 200 spaces and three letters come
    out as the three letters. *)
Lemma long_text_is_cut_to_cap_witness :
  exists g', validateGameLogInput entryPadded = Ok g'
             /\ g' !! "rooted_for" = Some (VStr (lit "abc")).
Proof.
  destruct (isOk_inv (validateGameLogInput entryPadded)) as [g' Hv];
      [vm_compute; reflexivity|].
  exists g'. split; [done|].
  assert (Hin : ("rooted_for", 100%nat) ∈ textFields)
    by (unfold textFields; set_solver).
  assert (Hs : getProp entryPadded "rooted_for" = VStr textPadded)
    by (vm_compute; reflexivity).
  destruct (long_text_is_cut_to_cap _ _ _ _ _ Hv Hin Hs) as [_ H].
  rewrite H; [vm_compute; reflexivity | vm_compute; lia].
Defined.

(** C5 as stated fails twice over: content that exceeds the cap only
    through its padding comes out shorter than the cap, and content cut
    right after a space comes out with that space at its end. *)
Lemma text_cap_counterexample :
  (exists g' t,
      validateGameLogInput entryPadded = Ok g'
      /\ getProp entryPadded "rooted_for" = VStr textPadded
      /\ (100 < length textPadded)%nat
      /\ g' !! "rooted_for" = Some (VStr t)
      /\ length t <> 100%nat)
  /\ (exists g' t,
        validateGameLogInput entrySpaceAtCap = Ok g'
        /\ getProp entrySpaceAtCap "rooted_for" = VStr textSpaceAtCap
        /\ (100 < length textSpaceAtCap)%nat
        /\ g' !! "rooted_for" = Some (VStr t)
        /\ length t = 100%nat
        /\ ~ noTrailingWhiteSpace t).
Proof.
  split.
  - destruct (isOk_inv (validateGameLogInput entryPadded)) as [g' Hv];
      [vm_compute; reflexivity|].
    exists g', (lit "abc").
    assert (H : g' !! "rooted_for" = Some (VStr (lit "abc"))).
    { apply validate_ok_inv in Hv as (_&_&_&_&c&n&r&_&_&Hr&->).
      rewrite lookup_insert_eq. vm_compute in Hr. injection Hr as <-.
      vm_compute. reflexivity. }
    repeat split; first [done | vm_compute; reflexivity | vm_compute; lia].
  - destruct (isOk_inv (validateGameLogInput entrySpaceAtCap)) as [g' Hv];
      [vm_compute; reflexivity|].
    exists g', (replicate 99 97%N ++ [32%N]).
    assert (H : g' !! "rooted_for" = Some (VStr (replicate 99 97%N ++ [32%N]))).
    { apply validate_ok_inv in Hv as (_&_&_&_&c&n&r&_&_&Hr&->).
      rewrite lookup_insert_eq. vm_compute in Hr. injection Hr as <-.
      vm_compute. reflexivity. }
    repeat split; try first [done | vm_compute; reflexivity | vm_compute; lia].
    intros Hno. by specialize (Hno 32%N (replicate 99 97%N) eq_refl).
Qed.

(** C6: on successful validation, a free-text field that is absent, empty
    or blank (empty once trimmed) is null in the normalized copy, and no
    free-text field of the copy is ever the empty string: each is null or
    a non-empty string. *)
Theorem empty_text_becomes_null g g' field cap :
  validateGameLogInput g = Ok g' ->
  (field, cap) ∈ textFields ->
  (nullish (getProp g field)
   \/ getProp g field = VStr []
   \/ (exists s, getProp g field = VStr s /\ trim s = []) ->
   g' !! field = Some VNull)
  /\ g' !! field <> Some (VStr [])
  /\ (g' !! field = Some VNull
      \/ exists c t, g' !! field = Some (VStr (c :: t))).
Proof.
  intros Hv Hin.
  destruct (validate_ok_text _ _ _ _ Hv Hin) as (r & Hr & ->).
  destruct (getProp g field) as [| |b|n|s] eqn:Hf; try (simpl in Hr; discriminate).
  - simpl in Hr. injection Hr as <-. split; [done | split; [done | by left]].
  - simpl in Hr. injection Hr as <-. split; [done | split; [done | by left]].
  - rewrite sanitizeText_string in Hr. injection Hr as <-.
    split; [|split].
    + intros [[H|H]|[H|(s' & H & Ht)]]; try discriminate.
      * injection H as ->. by destruct cap.
      * injection H as ->. rewrite Ht. by destruct cap.
    + by destruct (take cap (trim s)).
    + destruct (take cap (trim s)) as [|c t]; [by left | right; eauto].
Qed.

(** The theorem at the sample whose notes are three spaces. *)
Lemma empty_text_becomes_null_witness :
  exists g', validateGameLogInput entryBlank = Ok g'
             /\ g' !! "notes" = Some VNull
             /\ g' !! "rooted_for" = Some VNull.
Proof.
  destruct (isOk_inv (validateGameLogInput entryBlank)) as [g' Hv];
      [vm_compute; reflexivity|].
  exists g'. split; [done|]. split.
  - assert (Hin : ("notes", 1000%nat) ∈ textFields)
      by (unfold textFields; set_solver).
    destruct (empty_text_becomes_null _ _ _ _ Hv Hin) as [H _].
    apply H. right; right. exists textBlank.
    split; vm_compute; reflexivity.
  - assert (Hin : ("rooted_for", 100%nat) ∈ textFields)
      by (unfold textFields; set_solver).
    destruct (empty_text_becomes_null _ _ _ _ Hv Hin) as [H _].
    apply H. left. left. vm_compute. reflexivity.
Defined.

End Validator.

(* ===================================================================== *)
(** ** Properties of the list, create and update hooks                     *)
(* ===================================================================== *)

Section Hooks.

Implicit Types (u : User) (remote : Remote) (tr : list Request) (st : Store).

#[local] Instance inOrder_total c asc : Total (inOrder c asc).
Proof. intros r1 r2. unfold inOrder. destruct asc; lia. Qed.

#[local] Instance inOrder_trans c asc : Transitive (inOrder c asc).
Proof. intros r1 r2 r3. unfold inOrder. destruct asc; lia. Qed.

Lemma unwrap_run (resp : Response) remote tr :
  unwrap resp remote tr
  = (match resp_error resp with
     | Some e => Throw (RemoteError e)
     | None => Ok (resp_data resp)
     end, tr).
Proof. unfold unwrap. by destruct (resp_error resp). Qed.

Lemma filter_bool_Prop {A} (f : A -> bool) (P : A -> Prop)
    `{forall x, Decision (P x)} (l : list A) :
  (forall x, f x = true <-> P x) -> List.filter f l = filter P l.
Proof.
  intros Hf. induction l as [|x l IH]; [done|]. simpl.
  destruct (f x) eqn:Hx.
  - rewrite filter_cons_True by (by apply Hf). by rewrite IH.
  - rewrite filter_cons_False; [done|]. intros HP. apply Hf in HP. congruence.
Qed.

Lemma satisfies_user_id u r :
  satisfies [("user_id", VStr (uid u))] r = true <-> log_user_id r = uid u.
Proof.
  unfold satisfies. simpl. rewrite andb_true_r, bool_decide_eq_true.
  change (column r "user_id") with (VStr (log_user_id r)).
  split; congruence.
Qed.

(** C7: without a session the list operation returns the empty sequence,
    not an error, and issues no call to the remote store (the query is
    also disabled); for an authenticated user, the store answering, it
    issues one read and returns the entries of that user, newest-created
    first. *)
Theorem list_entries :
  (forall remote tr,
      useGameLogs.queryFn None remote tr = (Ok (PRows []), tr))
  /\ useGameLogs.enabled None = false
  /\ (forall u st writes tr,
        fault st = None ->
        exists rs,
          useGameLogs.queryFn (Some u) (storeRemote st writes) tr
          = (Ok (PRows rs),
             tr ++ [Select table_logs "*" [("user_id", VStr (uid u))]
                      "created_at" false])
          /\ rs ≡ₚ filter (fun r => log_user_id r = uid u) (rows st)
          /\ StronglySorted newerFirst rs).
Proof.
  split; [done|]. split; [done|].
  intros u st writes tr Hfault.
  exists (storeSelect st [("user_id", VStr (uid u))] "created_at" false).
  split; [|split].
  - unfold useGameLogs.queryFn, bind, call, unwrap, storeRemote. simpl.
    by rewrite Hfault.
  - unfold storeSelect. rewrite merge_sort_Permutation.
    by rewrite (filter_bool_Prop _ (fun r => log_user_id r = uid u))
      by apply satisfies_user_id.
  - unfold storeSelect.
    change newerFirst with (inOrder "created_at" false).
    apply StronglySorted_merge_sort; apply _.
Qed.

(** The theorem at the sample store, which answers: the entries of user
    U come back newest first. *)
Lemma list_entries_witness :
  fault sampleStore = None
  /\ exists rs,
       useGameLogs.queryFn (Some userU) (storeRemote sampleStore acceptAll) []
       = (Ok (PRows rs),
          [Select table_logs "*" [("user_id", VStr (lit "U"))] "created_at" false])
       /\ rs ≡ₚ filter (fun r => log_user_id r = lit "U") [rowE; rowOther; rowF]
       /\ StronglySorted newerFirst rs.
Proof.
  split; [reflexivity|].
  destruct list_entries as (_ & _ & H).
  exact (H userU sampleStore acceptAll [] eq_refl).
Defined.

(** On the sample store the list is [F] then [E]. *)
Example list_entries_sample :
  useGameLogs.queryFn (Some userU) (storeRemote sampleStore acceptAll) []
  = (Ok (PRows [rowF; rowE]),
     [Select table_logs "*" [("user_id", VStr (lit "U"))] "created_at" false]).
Proof. vm_compute. reflexivity. Qed.

(** C8: without a session the create operation fails with an
    authentication error before any validation or call; with a session
    it issues no call when validation fails, and otherwise issues exactly
    one insert, whose row is the normalized entry with [user_id] set to
    the session identity, whatever [user_id] the caller supplied; the
    sample entry of user U is written with company Alex and user_id U. *)
Theorem create_forces_owner :
  (forall gameLog remote tr,
      useAddGameLog.mutationFn None gameLog remote tr
      = (Throw (Error msg_auth_add), tr))
  /\ isAuthenticationError (Error msg_auth_add)
  /\ (forall u gameLog remote tr,
        match validateGameLogInput gameLog with
        | Throw e =>
            useAddGameLog.mutationFn (Some u) gameLog remote tr = (Throw e, tr)
        | Ok validated =>
            exists res row,
              useAddGameLog.mutationFn (Some u) gameLog remote tr
              = (res, tr ++ [Insert table_logs row])
              /\ row = <["user_id" := VStr (uid u)]> validated
              /\ row !! "user_id" = Some (VStr (uid u))
        end)
  /\ (forall remote,
        exists res row,
          useAddGameLog.mutationFn (Some userU) entryAlex remote []
          = (res, [Insert table_logs row])
          /\ row !! "company" = Some (VStr (lit "Alex"))
          /\ row !! "user_id" = Some (VStr (lit "U"))).
Proof.
  assert (Hgen : forall u gameLog remote tr validated,
             validateGameLogInput gameLog = Ok validated ->
             exists res,
               useAddGameLog.mutationFn (Some u) gameLog remote tr
               = (res, tr ++ [Insert table_logs
                                (<["user_id" := VStr (uid u)]> validated)])).
  { intros u gameLog remote tr validated Hv.
    unfold useAddGameLog.mutationFn, bind, liftR, call, unwrap. rewrite Hv.
    destruct (resp_error _); eauto. }
  split; [done|]. split; [by left|]. split.
  - intros u gameLog remote tr.
    destruct (validateGameLogInput gameLog) as [validated|e] eqn:Hv.
    + destruct (Hgen u gameLog remote tr validated Hv) as [res Hres].
      exists res, (<["user_id" := VStr (uid u)]> validated).
      split; [done|]. split; [done|]. apply lookup_insert_eq.
    + unfold useAddGameLog.mutationFn, bind, liftR. by rewrite Hv.
  - intros remote.
    destruct (isOk_inv (validateGameLogInput entryAlex)) as [validated Hv];
    [vm_compute; reflexivity|].
    destruct (Hgen userU entryAlex remote [] validated Hv) as [res Hres].
    exists res, (<["user_id" := VStr (uid userU)]> validated).
    split; [done|]. split; [|apply lookup_insert_eq].
    rewrite lookup_insert_ne by done.
    destruct (validate_ok_text _ _ "company" 255%nat Hv) as (r & Hr & ->);
      [unfold textFields; set_solver|].
    vm_compute in Hr. injection Hr as <-. vm_compute. reflexivity.
Qed.

(** C9: the update operation fails before any call when the session is
    absent or the target id is missing; with a session and a non-empty
    target id it issues no call when validation fails, and otherwise
    exactly one update, filtered by (id = target, user_id = session
    identity), whose fields are exactly mode, company, rating, rooted_for,
    notes and updated_at: mode and rating as supplied, the texts as
    normalized, updated_at the current time; neither [game_id] nor
    [user_id] is among them. *)
Theorem update_writes_mutable_fields :
  (forall now gameLog remote tr,
      useUpdateGameLog.mutationFn now None gameLog remote tr
      = (Throw (Error msg_auth_update), tr))
  /\ (forall now u gameLog remote tr,
        missing (getProp gameLog "id") ->
        useUpdateGameLog.mutationFn now (Some u) gameLog remote tr
        = (Throw (Error msg_id_update), tr))
  /\ (forall now u gameLog remote tr c t,
        getProp gameLog "id" = VStr (c :: t) ->
        match validateGameLogInput (<["game_id" := VStr (lit "temp")]> gameLog) with
        | Throw e =>
            useUpdateGameLog.mutationFn now (Some u) gameLog remote tr
            = (Throw e, tr)
        | Ok validated =>
            exists res fields,
              useUpdateGameLog.mutationFn now (Some u) gameLog remote tr
              = (res, tr ++ [Update table_logs fields
                               [("id", VStr (c :: t));
                                ("user_id", VStr (uid u))]])
              /\ dom fields = mutableFields
              /\ fields !! "game_id" = None
              /\ fields !! "user_id" = None
              /\ fields !! "updated_at" = Some (VStr now)
              /\ fields !! "mode" = Some (getProp gameLog "mode")
              /\ fields !! "rating" = Some (getProp gameLog "rating")
              /\ fields !! "company" = validated !! "company"
              /\ fields !! "rooted_for" = validated !! "rooted_for"
              /\ fields !! "notes" = validated !! "notes"
        end).
Proof.
  split; [done|]. split.
  - intros clock u gameLog remote tr Hid. unfold useUpdateGameLog.mutationFn.
    destruct Hid as [[Hid|Hid]|Hid]; by rewrite Hid.
  - intros clock u gameLog remote tr c t Hid.
    unfold useUpdateGameLog.mutationFn. rewrite Hid. cbn [truthy negb].
    unfold bind, liftR, call.
    destruct (validateGameLogInput _) as [validated|e] eqn:Hv; [|done].
    rewrite unwrap_run. eexists _, _. split; [reflexivity|].
    assert (Hsame : forall k, k <> "company" -> k <> "notes" ->
                      k <> "rooted_for" -> k <> "game_id" ->
                      getProp validated k = getProp gameLog k).
    { intros k ? ? ? ?. unfold getProp.
      rewrite (validate_ok_other _ _ k Hv) by done.
      by rewrite lookup_insert_ne. }
    assert (Htext : forall field cap, (field, cap) ∈ textFields ->
                      Some (getProp validated field) = validated !! field).
    { intros field cap Hin.
      destruct (validate_ok_text _ _ _ _ Hv Hin) as (r & _ & Hr).
      unfold getProp. by rewrite Hr. }
    repeat apply conj.
    + unfold mutableFields. rewrite !dom_insert_L, dom_empty_L. set_solver.
    + by rewrite !lookup_insert_ne, lookup_empty by done.
    + by rewrite !lookup_insert_ne, lookup_empty by done.
    + by rewrite lookup_insert_eq.
    + rewrite !lookup_insert_ne, lookup_insert_eq by done.
      by rewrite Hsame.
    + rewrite !lookup_insert_ne, lookup_insert_eq by done.
      by rewrite Hsame.
    + rewrite !lookup_insert_ne, lookup_insert_eq by done.
      apply (Htext _ 255%nat). unfold textFields. set_solver.
    + rewrite !lookup_insert_ne, lookup_insert_eq by done.
      apply (Htext _ 100%nat). unfold textFields. set_solver.
    + rewrite !lookup_insert_ne, lookup_insert_eq by done.
      apply (Htext _ 1000%nat). unfold textFields. set_solver.
Qed.

(** The theorem at the sample edit of entry [E] by user U. *)
Lemma update_writes_mutable_fields_witness :
  exists res fields,
    useUpdateGameLog.mutationFn sampleNow (Some userU) entryEdit acceptAll []
    = (res, [Update table_logs fields
               [("id", VStr (lit "E")); ("user_id", VStr (lit "U"))]])
    /\ dom fields = mutableFields
    /\ fields !! "game_id" = None
    /\ fields !! "user_id" = None.
Proof.
  destruct update_writes_mutable_fields as (_ & _ & H).
  specialize (H sampleNow userU entryEdit acceptAll [] 69%N [] eq_refl).
  destruct (isOk_inv (validateGameLogInput (<["game_id" := VStr (lit "temp")]> entryEdit))) as [validated Hv];
    [vm_compute; reflexivity|].
  destruct H as (res & fields & Hm & Hd & Hg & Hu & _).
  exists res, fields. by repeat split.
Defined.

(** The scenario of the specification: an entry with a rating of 6 is
    refused with a validation error and nothing is written. *)
Example create_rating_six_rejected remote :
  useAddGameLog.mutationFn (Some userU) entrySix remote []
  = (Throw (Error msg_rating), []).
Proof. reflexivity. Qed.

End Hooks.

(* ===================================================================== *)
(** ** Properties of the query cache and of the optimistic delete          *)
(* ===================================================================== *)

Section Cache.

Implicit Types (c : QueryCache) (k : QueryKey) (q : QueryState).
Implicit Types (u : option (list CacheItem) -> option (list CacheItem)).

Lemma lookup_updateMatching partial f c k :
  updateMatching partial f c !! k
  = (fun q => if keyMatches partial k then f q else q) <$> c !! k.
Proof. unfold updateMatching. rewrite map_lookup_imap. by destruct (c !! k). Qed.

Lemma getQueryData_cancelQueries partial c k :
  getQueryData k (cancelQueries partial c) = getQueryData k c.
Proof.
  unfold getQueryData, cancelQueries. rewrite lookup_updateMatching.
  destruct (c !! k) as [q|]; [|done]. simpl. by destruct (keyMatches partial k).
Qed.

Lemma getQueryData_invalidateQueries partial c k :
  getQueryData k (invalidateQueries partial c) = getQueryData k c.
Proof.
  unfold getQueryData, invalidateQueries. rewrite lookup_updateMatching.
  destruct (c !! k) as [q|]; [|done]. simpl. by destruct (keyMatches partial k).
Qed.

Lemma lookup_setQueryData key u c k :
  setQueryData key u c !! k = if decide (k = key) then patched u c k else c !! k.
Proof.
  unfold setQueryData, patched. destruct (decide (k = key)) as [->|Hne].
  - destruct (u (getQueryData key c)); [apply lookup_insert_eq | done].
  - destruct (u (getQueryData key c)); [by apply lookup_insert_ne | done].
Qed.

Lemma patched_data u c k :
  is_Some (u (getQueryData k c)) -> patched u c k ≫= data = u (getQueryData k c).
Proof. unfold patched. by intros [d ->]. Qed.

Lemma foldl_setQueryData_lookup u (l : list (QueryKey * QueryState)) c k :
  NoDup l.*1 ->
  foldl (fun c' query => setQueryData query.1 u c') c l !! k
  = if decide (k ∈ l.*1) then patched u c k else c !! k.
Proof.
  revert c. induction l as [|[key q] l IH]; intros c Hnd; simpl.
  - destruct (decide (k ∈ [])) as [Hin|]; [by apply elem_of_nil in Hin | done].
  - apply NoDup_cons in Hnd as [Hkey Hnd]. rewrite (IH _ Hnd).
    destruct (decide (k ∈ l.*1)) as [Hin|Hnin].
    + assert (k <> key) by (intros ->; done).
      rewrite decide_True by (apply elem_of_cons; auto).
      unfold patched, getQueryData. by rewrite !lookup_setQueryData, !decide_False.
    + rewrite lookup_setQueryData. destruct (decide (k = key)) as [->|Hne].
      * by rewrite decide_True by (apply elem_of_cons; auto).
      * rewrite decide_False; [done|]. intros [?|?]%elem_of_cons; done.
Qed.

Lemma findAll_keys partial c k :
  k ∈ (findAll partial c).*1 <-> keyMatches partial k = true /\ is_Some (c !! k).
Proof.
  unfold findAll. rewrite list_elem_of_fmap. split.
  - intros ([k' q] & -> & Hin). apply list_elem_of_In, filter_In in Hin as [Hin Hm].
    apply list_elem_of_In, elem_of_map_to_list in Hin. simpl in *. eauto.
  - intros (Hm & q & Hq). exists (k, q). split; [done|].
    apply list_elem_of_In, filter_In. split; [|done].
    by apply list_elem_of_In, elem_of_map_to_list.
Qed.

Lemma findAll_NoDup partial c : NoDup (findAll partial c).*1.
Proof.
  unfold findAll.
  rewrite (filter_bool_Prop _ (fun kq => keyMatches partial kq.1 = true)) by done.
  apply (sublist_NoDup _ (map_to_list c).*1); [apply NoDup_fst_map_to_list|].
  apply fmap_sublist, sublist_filter.
Qed.

Lemma game_logs_key_not_logged_games p :
  keyMatches key_logged_games (key_game_logs ++ [p]) = false.
Proof. apply bool_decide_eq_false. intros [l Hl]. vm_compute in Hl. discriminate. Qed.

Lemma logged_games_key_not_game_logs p :
  keyMatches key_game_logs (key_logged_games ++ [p]) = false.
Proof. apply bool_decide_eq_false. intros [l Hl]. vm_compute in Hl. discriminate. Qed.

(** The cache after [onMutate], slot by slot. *)
Lemma onMutate_lookup user gameLogId c k :
  let c2 := cancelQueries key_logged_games (cancelQueries key_game_logs c) in
  (useDeleteGameLog.onMutate user gameLogId c).2 !! k
  = if decide (k = key_game_logs ++ [userIdPart user])
    then patched (useDeleteGameLog.dropLog gameLogId) c2 k
    else if keyMatches key_logged_games k
         then match c2 !! k with
              | Some _ => patched (useDeleteGameLog.dropLoggedGame gameLogId) c2 k
              | None => None
              end
         else c2 !! k.
Proof.
  intros c2. unfold useDeleteGameLog.onMutate. fold c2. cbn [snd].
  set (c3 := setQueryData _ (useDeleteGameLog.dropLog gameLogId) c2).
  rewrite foldl_setQueryData_lookup by apply findAll_NoDup.
  assert (H3 : forall k', k' <> key_game_logs ++ [userIdPart user] ->
                          c3 !! k' = c2 !! k').
  { intros k' Hk'. unfold c3. by rewrite lookup_setQueryData, decide_False. }
  destruct (decide (k = key_game_logs ++ [userIdPart user])) as [->|Hne].
  - rewrite decide_False.
    + unfold c3. by rewrite lookup_setQueryData, decide_True.
    + rewrite findAll_keys, game_logs_key_not_logged_games. by intros [? _].
  - destruct (keyMatches key_logged_games k) eqn:Hm.
    + destruct (c2 !! k) as [q|] eqn:Hq.
      * rewrite decide_True by (rewrite findAll_keys, H3, Hq; eauto).
        unfold patched, getQueryData. by rewrite H3.
      * rewrite decide_False; [by rewrite H3|].
        rewrite findAll_keys, H3, Hq by done. intros [_ [? ?]]. done.
    + rewrite decide_False; [by apply H3|].
      rewrite findAll_keys, Hm. by intros [? _].
Qed.

Lemma lookup_cancelled c k :
  let c2 := cancelQueries key_logged_games (cancelQueries key_game_logs c) in
  (is_Some (c2 !! k) <-> is_Some (c !! k))
  /\ getQueryData k c2 = getQueryData k c.
Proof.
  intros c2. split.
  - unfold c2, cancelQueries. rewrite !lookup_updateMatching, !fmap_is_Some. done.
  - unfold c2. by rewrite !getQueryData_cancelQueries.
Qed.

Lemma onMutate_data user gameLogId c k :
  getQueryData k (useDeleteGameLog.onMutate user gameLogId c).2
  = if decide (k = entryListKey user)
    then useDeleteGameLog.dropLog gameLogId (getQueryData k c)
    else if keyMatches key_logged_games k
         then c !! k ≫= fun q => useDeleteGameLog.dropLoggedGame gameLogId (data q)
         else getQueryData k c.
Proof.
  unfold getQueryData at 1. rewrite onMutate_lookup. unfold entryListKey.
  destruct (lookup_cancelled c k) as [Hdom Hdata].
  destruct (decide (k = key_game_logs ++ [userIdPart user])) as [->|Hne].
  - rewrite patched_data by (unfold useDeleteGameLog.dropLog; eauto).
    by rewrite Hdata.
  - destruct (keyMatches key_logged_games k); [|exact Hdata].
    destruct (cancelQueries _ _ !! k) as [q2|] eqn:H2.
    + rewrite patched_data by (unfold useDeleteGameLog.dropLoggedGame; eauto).
      rewrite Hdata. unfold getQueryData.
      destruct (c !! k) as [q|]; [done|].
      destruct Hdom as [Hdom _]. by destruct Hdom.
    + destruct (c !! k) as [q|]; [|done].
      destruct Hdom as [_ Hdom]. by destruct Hdom.
Qed.

Lemma onMutate_context user gameLogId c :
  (useDeleteGameLog.onMutate user gameLogId c).1
  = {| useDeleteGameLog.previousGameLogs := getQueryData (entryListKey user) c;
       useDeleteGameLog.previousLoggedGames := getQueryData (loggedGamesKey user) c |}.
Proof.
  unfold useDeleteGameLog.onMutate. cbn [fst].
  by rewrite !getQueryData_cancelQueries.
Qed.

Lemma getQueryData_setQueryData key u c k :
  is_Some (u (getQueryData key c)) ->
  getQueryData k (setQueryData key u c)
  = if decide (k = key) then u (getQueryData key c) else getQueryData k c.
Proof.
  intros Hu. unfold getQueryData at 1. rewrite lookup_setQueryData.
  destruct (decide (k = key)) as [->|]; [by apply patched_data | done].
Qed.

(** The cache after [onError], slot by slot: a slot is written only when
    it is one of the two snapshot slots and its snapshot holds a value. *)
Lemma onError_data user err gameLogId ctx c k :
  getQueryData k (useDeleteGameLog.onError user err gameLogId (Some ctx) c)
  = match useDeleteGameLog.previousLoggedGames ctx with
    | Some previous =>
        if decide (k = loggedGamesKey user) then Some previous
        else match useDeleteGameLog.previousGameLogs ctx with
             | Some previous' =>
                 if decide (k = entryListKey user) then Some previous'
                 else getQueryData k c
             | None => getQueryData k c
             end
    | None =>
        match useDeleteGameLog.previousGameLogs ctx with
        | Some previous' =>
            if decide (k = entryListKey user) then Some previous'
            else getQueryData k c
        | None => getQueryData k c
        end
    end.
Proof.
  unfold useDeleteGameLog.onError, loggedGamesKey, entryListKey. cbn [mbind option_bind].
  destruct (useDeleteGameLog.previousLoggedGames ctx) as [pg|];
    destruct (useDeleteGameLog.previousGameLogs ctx) as [pl|];
    rewrite ?getQueryData_setQueryData by eauto; done.
Qed.

Lemma strictEqStr_true v s : strictEqStr v s = true <-> v = VStr s.
Proof.
  destruct v; simpl; try (split; discriminate).
  rewrite bool_decide_eq_true. split; congruence.
Qed.

Lemma filter_keeps {A} (f : A -> bool) (l : list A) :
  List.filter f l `sublist_of` l
  /\ forall x, x ∈ List.filter f l <-> x ∈ l /\ f x = true.
Proof.
  split.
  - rewrite (filter_bool_Prop f (fun x => f x = true)) by done.
    apply sublist_filter.
  - intros x. by rewrite !list_elem_of_In, filter_In.
Qed.

Lemma keyMatches_prefix partial k :
  keyMatches partial k = true <-> partial `prefix_of` k.
Proof. unfold keyMatches. apply bool_decide_eq_true. Qed.

Lemma entryListKey_not_logged_games user :
  ~ key_logged_games `prefix_of` entryListKey user.
Proof.
  intros H%keyMatches_prefix. unfold entryListKey in H.
  by rewrite game_logs_key_not_logged_games in H.
Qed.

(** C2: the optimistic patch, which runs before the remote call is
    issued and has no access to the remote store, leaves in the cached
    entry list exactly the elements whose id is not the deleted id, in
    their order, and likewise leaves in every cached logged-games result
    set, whatever the filter parameters of its key, exactly the elements
    whose linked entry has another id; the cached list [E, F] becomes
    [F] when [E] is deleted. *)
Theorem optimistic_patch_removes_entry user gameLogId c :
  let c' := (useDeleteGameLog.onMutate user gameLogId c).2 in
  (forall l,
      getQueryData (entryListKey user) c = Some l ->
      exists l',
        getQueryData (entryListKey user) c' = Some l'
        /\ l' `sublist_of` l
        /\ forall x, x ∈ l' <-> x ∈ l /\ item_id x <> VStr gameLogId)
  /\ (forall k l,
        key_logged_games `prefix_of` k ->
        getQueryData k c = Some l ->
        exists l',
          getQueryData k c' = Some l'
          /\ l' `sublist_of` l
          /\ forall x, x ∈ l' <-> x ∈ l /\ item_logData_id x <> VStr gameLogId)
  /\ getQueryData keyLogsU
       (useDeleteGameLog.onMutate (Some userU) (lit "E") sampleCache).2
     = Some [itemF].
Proof.
  intros c'. split; [|split].
  - intros l Hl. unfold c'. rewrite onMutate_data, decide_True, Hl by done.
    eexists. split; [reflexivity|].
    destruct (filter_keeps
                (fun log => negb (strictEqStr (item_id log) gameLogId)) l)
      as [Hsub Hin].
    split; [exact Hsub|]. intros x. rewrite Hin, negb_true_iff.
    rewrite <- not_true_iff_false, strictEqStr_true. done.
  - intros k l Hk Hl. unfold c'. rewrite onMutate_data.
    rewrite decide_False
      by (intros ->; by apply (entryListKey_not_logged_games user)).
    apply keyMatches_prefix in Hk. rewrite Hk.
    unfold getQueryData in Hl. destruct (c !! k) as [q|]; [|done].
    simpl in Hl. simpl. rewrite Hl.
    eexists. split; [reflexivity|].
    destruct (filter_keeps
                (fun game => negb (strictEqStr (item_logData_id game) gameLogId)) l)
      as [Hsub Hin].
    split; [exact Hsub|]. intros x. rewrite Hin, negb_true_iff.
    rewrite <- not_true_iff_false, strictEqStr_true. done.
  - vm_compute. reflexivity.
Qed.

(** The theorem at the sample view: the filtered logged-games result set
    loses the game linked to [E], and nothing else. *)
Lemma optimistic_patch_removes_entry_witness :
  exists l',
    getQueryData keyGamesFiltered
      (useDeleteGameLog.onMutate (Some userU) (lit "E") sampleCache).2 = Some l'
    /\ l' `sublist_of` [gameE; gameF]
    /\ forall x, x ∈ l' <-> x ∈ [gameE; gameF] /\ item_logData_id x <> VStr (lit "E").
Proof.
  destruct (optimistic_patch_removes_entry (Some userU) (lit "E") sampleCache)
    as (_ & H & _).
  apply (H keyGamesFiltered [gameE; gameF]).
  - exists [KStr (lit "U"); KFilters sampleFilters]. reflexivity.
  - vm_compute. reflexivity.
Defined.

Lemma entryListKey_ne_loggedGamesKey user user' :
  entryListKey user <> loggedGamesKey user'.
Proof. unfold entryListKey, loggedGamesKey. intros H. vm_compute in H. discriminate. Qed.

(** C10: when a delete starts while the entry-list slot, or a
    logged-games slot that is in the cache, holds no value, the
    optimistic patch puts the empty list into that slot; the snapshot
    taken for such a slot is the absent value, the rollback of the error
    path writes back present snapshots only, and so the empty list is
    still in the slot after the rollback and after the invalidation that
    follows it. *)
Theorem absent_slot_gets_empty_list user gameLogId err c k :
  k = entryListKey user \/ (key_logged_games `prefix_of` k /\ is_Some (c !! k)) ->
  getQueryData k c = None ->
  let ctx := (useDeleteGameLog.onMutate user gameLogId c).1 in
  let c1 := (useDeleteGameLog.onMutate user gameLogId c).2 in
  let c2 := useDeleteGameLog.onError user err gameLogId (Some ctx) c1 in
  getQueryData k c1 = Some []
  /\ (k = entryListKey user -> useDeleteGameLog.previousGameLogs ctx = None)
  /\ (k = loggedGamesKey user -> useDeleteGameLog.previousLoggedGames ctx = None)
  /\ getQueryData k c2 = Some []
  /\ getQueryData k (useDeleteGameLog.onSettled c2) = Some [].
Proof.
  intros Hk Hnone ctx c1 c2.
  assert (H1 : getQueryData k c1 = Some []).
  { unfold c1. rewrite onMutate_data. destruct Hk as [->|[Hpre [q Hq]]].
    - by rewrite decide_True, Hnone.
    - rewrite decide_False
        by (intros ->; by apply (entryListKey_not_logged_games user)).
      apply keyMatches_prefix in Hpre. rewrite Hpre, Hq. simpl.
      unfold getQueryData in Hnone. rewrite Hq in Hnone. simpl in Hnone.
      by rewrite Hnone. }
  assert (Hl : k = entryListKey user ->
               useDeleteGameLog.previousGameLogs ctx = None).
  { intros ->. unfold ctx. by rewrite onMutate_context. }
  assert (Hg : k = loggedGamesKey user ->
               useDeleteGameLog.previousLoggedGames ctx = None).
  { intros ->. unfold ctx. by rewrite onMutate_context. }
  assert (H2 : getQueryData k c2 = Some []).
  { unfold c2. rewrite onError_data.
    destruct (decide (k = loggedGamesKey user)) as [Heq|Hne].
    - rewrite (Hg Heq).
      destruct (useDeleteGameLog.previousGameLogs ctx); [|done].
      rewrite decide_False; [done|]. rewrite Heq. intros Hx. symmetry in Hx.
      by apply entryListKey_ne_loggedGamesKey in Hx.
    - destruct (decide (k = entryListKey user)) as [Heq|Hne'].
      + rewrite (Hl Heq). by destruct (useDeleteGameLog.previousLoggedGames ctx).
      + by destruct (useDeleteGameLog.previousLoggedGames ctx),
             (useDeleteGameLog.previousGameLogs ctx). }
  repeat apply conj; try done.
  unfold useDeleteGameLog.onSettled. by rewrite !getQueryData_invalidateQueries.
Qed.

(** The theorem at the view in which nothing has loaded yet. *)
Lemma absent_slot_gets_empty_list_witness :
  getQueryData keyGamesFiltered loadingCache = None
  /\ getQueryData keyGamesFiltered
       (useDeleteGameLog.onError (Some userU) TypeError (lit "E")
          (Some (useDeleteGameLog.onMutate (Some userU) (lit "E") loadingCache).1)
          (useDeleteGameLog.onMutate (Some userU) (lit "E") loadingCache).2)
     = Some [].
Proof.
  assert (Hn : getQueryData keyGamesFiltered loadingCache = None)
    by (vm_compute; reflexivity).
  split; [exact Hn|].
  refine (proj1 (proj2 (proj2 (proj2
    (absent_slot_gets_empty_list (Some userU) (lit "E") TypeError
       loadingCache keyGamesFiltered _ Hn))))).
  right. split.
  - exists [KStr (lit "U"); KFilters sampleFilters]. reflexivity.
  - vm_compute. eauto.
Defined.

Lemma onSettled_lookup c k :
  useDeleteGameLog.onSettled c !! k
  = (fun q =>
       if keyMatches key_game_logs k || keyMatches key_logged_games k
       then {| data := data q; isInvalidated := true;
               isFetching := isFetching q || isActive q; isActive := isActive q |}
       else q) <$> c !! k.
Proof.
  unfold useDeleteGameLog.onSettled, invalidateQueries.
  rewrite !lookup_updateMatching. destruct (c !! k) as [q|]; [|done]. simpl.
  destruct (keyMatches key_game_logs k), (keyMatches key_logged_games k);
    simpl; try done.
  f_equal. f_equal. by destruct (isFetching q), (isActive q).
Qed.

Lemma onMutate_keeps_slots user gameLogId c k :
  is_Some ((useDeleteGameLog.onMutate user gameLogId c).2 !! k)
  <-> k = entryListKey user \/ is_Some (c !! k).
Proof.
  rewrite onMutate_lookup. destruct (lookup_cancelled c k) as [Hdom _].
  unfold entryListKey.
  destruct (decide (k = key_game_logs ++ [userIdPart user])) as [->|Hne].
  - unfold patched, useDeleteGameLog.dropLog. split; eauto.
  - destruct (keyMatches key_logged_games k).
    + destruct (cancelQueries _ _ !! k) as [q2|] eqn:H2.
      * unfold patched, useDeleteGameLog.dropLoggedGame.
        split; [intros _; right; apply Hdom; eauto | eauto].
      * split; [by intros [? ?]|]. intros [?|H]; [done|]. by apply Hdom in H.
    + split; [intros H; right; by apply Hdom|].
      intros [?|H]; [done | by apply Hdom].
Qed.

Lemma onError_keeps_slots user err gameLogId context c k :
  is_Some (c !! k) ->
  is_Some (useDeleteGameLog.onError user err gameLogId context c !! k).
Proof.
  assert (Hset : forall key p c', is_Some (c' !! k) ->
             is_Some (setQueryData key (fun _ => Some p) c' !! k)).
  { intros key p c' Hc'. rewrite lookup_setQueryData.
    destruct (decide (k = key)); [|done]. unfold patched. eauto. }
  intros Hk. unfold useDeleteGameLog.onError.
  destruct (context ≫= useDeleteGameLog.previousGameLogs),
    (context ≫= useDeleteGameLog.previousLoggedGames); auto.
Qed.

(** C3: in every execution of the delete operation, in particular in
    those that reach the remote call, and whether the remote delete
    succeeds or fails, the cache after the settle step has every
    entry-list query and every logged-games query marked invalidated,
    the active ones refetching; the entry-list slot of the user is among
    them, and no slot of the cache has been dropped. *)
Theorem settle_invalidates user gameLogId remote c tr :
  let c' := (mutate (useDeleteGameLog.options user) gameLogId remote c tr).1.2 in
  (forall k q,
      c' !! k = Some q ->
      key_game_logs `prefix_of` k \/ key_logged_games `prefix_of` k ->
      isInvalidated q = true /\ (isActive q = true -> isFetching q = true))
  /\ is_Some (c' !! entryListKey user)
  /\ (forall k, is_Some (c !! k) -> is_Some (c' !! k)).
Proof.
  intros c'.
  assert (Hc' : exists x,
             c' = useDeleteGameLog.onSettled x
             /\ forall k, k = entryListKey user \/ is_Some (c !! k) ->
                          is_Some (x !! k)).
  { unfold c', mutate. cbn [useDeleteGameLog.options onMutate mutationFn
                             onSuccess onError onSettled].
    destruct (useDeleteGameLog.onMutate user gameLogId c) as [ctx c1] eqn:Hm.
    assert (H1 : forall k, k = entryListKey user \/ is_Some (c !! k) ->
                           is_Some (c1 !! k)).
    { intros k Hk. apply (onMutate_keeps_slots user gameLogId) in Hk.
      by rewrite Hm in Hk. }
    destruct (useDeleteGameLog.mutationFn user gameLogId remote tr) as [[r|e] tr'].
    - exists c1. by split.
    - eexists. split; [reflexivity|].
      intros k Hk. by apply onError_keeps_slots, H1. }
  destruct Hc' as (x & -> & Hx).
  split; [|split].
  - intros k q Hq Hk. rewrite onSettled_lookup in Hq.
    assert (Hm : keyMatches key_game_logs k || keyMatches key_logged_games k = true).
    { apply orb_true_iff. by rewrite !keyMatches_prefix. }
    rewrite Hm in Hq. destruct (x !! k) as [q0|]; [|done].
    injection Hq as <-. simpl. split; [done|]. intros ->. apply orb_true_r.
  - rewrite onSettled_lookup, fmap_is_Some. apply Hx. by left.
  - intros k Hk. rewrite onSettled_lookup, fmap_is_Some. apply Hx. by right.
Qed.

(** The theorem on the sample view with a remote that refuses the
    delete: the filtered logged-games query is still in the cache and is
    invalidated. *)
Lemma settle_invalidates_witness :
  exists q,
    (mutate (useDeleteGameLog.options (Some userU)) (lit "E") refuseAll
       sampleCache []).1.2 !! keyGamesFiltered = Some q
    /\ isInvalidated q = true.
Proof.
  destruct (settle_invalidates (Some userU) (lit "E") refuseAll sampleCache [])
    as (H & _ & Hkeep).
  destruct (Hkeep keyGamesFiltered) as [q Hq]; [vm_compute; eauto|].
  exists q. split; [exact Hq|].
  apply (H keyGamesFiltered q Hq). right.
  exists [KStr (lit "U"); KFilters sampleFilters]. reflexivity.
Defined.

(** The rollback does restore the two slots it has snapshots of: the
    entry list comes back as it was. *)
Lemma rollback_restores_entry_list user gameLogId err c l :
  getQueryData (entryListKey user) c = Some l ->
  getQueryData (entryListKey user)
    (useDeleteGameLog.onError user err gameLogId
       (Some (useDeleteGameLog.onMutate user gameLogId c).1)
       (useDeleteGameLog.onMutate user gameLogId c).2)
  = Some l.
Proof.
  intros Hl. rewrite onError_data, onMutate_context.
  cbn [useDeleteGameLog.previousGameLogs useDeleteGameLog.previousLoggedGames].
  rewrite Hl, decide_True by done.
  destruct (getQueryData (loggedGamesKey user) c); [|done].
  rewrite decide_False; [done|]. apply entryListKey_ne_loggedGamesKey.
Qed.

(** C1 on the sample view, the remote refusing the delete of [E]: the
    entry list is back to [E, F], but the filtered logged-games result
    set, from which the optimistic patch removed the game of [E], is not
    restored: it still lacks that game after the rollback and after the
    settle step. *)
Theorem rollback_misses_filtered_logged_games :
  let ctx := (useDeleteGameLog.onMutate (Some userU) (lit "E") sampleCache).1 in
  let c1 := (useDeleteGameLog.onMutate (Some userU) (lit "E") sampleCache).2 in
  let c2 := useDeleteGameLog.onError (Some userU)
              (RemoteError (lit "refused")) (lit "E") (Some ctx) c1 in
  let run := mutate (useDeleteGameLog.options (Some userU)) (lit "E")
               refuseAll sampleCache [] in
  run.1.1 = Throw (RemoteError (lit "refused"))
  /\ getQueryData keyLogsU sampleCache = Some [itemE; itemF]
  /\ getQueryData keyLogsU c2 = Some [itemE; itemF]
  /\ getQueryData keyGamesFiltered sampleCache = Some [gameE; gameF]
  /\ getQueryData keyGamesFiltered c1 = Some [gameF]
  /\ getQueryData keyGamesFiltered c2 = Some [gameF]
  /\ getQueryData keyGamesFiltered run.1.2 = Some [gameF].
Proof. repeat apply conj; vm_compute; reflexivity. Qed.

End Cache.

(* ===================================================================== *)
(** ** Further properties of the validator and of the hooks                *)
(* ===================================================================== *)

Section MoreValidator.

Implicit Types (g : Obj) (v : JsVal) (s : jsstring).

Lemma getProp_insert_ne g k k' v : k <> k' -> getProp (<[k := v]> g) k' = getProp g k'.
Proof. intros Hne. unfold getProp. by rewrite lookup_insert_ne. Qed.

Lemma getProp_insert_eq g k v : getProp (<[k := v]> g) k = v.
Proof. unfold getProp. by rewrite lookup_insert_eq. Qed.

Lemma trimStart_fixed s : noLeadingWhiteSpace s -> trimStart s = s.
Proof.
  destruct s as [|c t]; [done|]. intros Hs. simpl.
  by rewrite (Hs c t eq_refl).
Qed.

Lemma trimEnd_fixed s : noTrailingWhiteSpace s -> trimEnd s = s.
Proof.
  intros Hs. unfold trimEnd. rewrite trimStart_fixed.
  - apply reverse_involutive.
  - intros c t Ht. apply (Hs c (reverse t)).
    apply (f_equal reverse) in Ht.
    by rewrite reverse_involutive, reverse_cons in Ht.
Qed.

Lemma trim_fixed s :
  noLeadingWhiteSpace s -> noTrailingWhiteSpace s -> trim s = s.
Proof. intros Hl Ht. unfold trim. by rewrite (trimStart_fixed s Hl), trimEnd_fixed. Qed.

Lemma trim_trim s : trim (trim s) = trim s.
Proof. apply trim_fixed; [apply trim_no_leading | apply trim_no_trailing]. Qed.

(** X10: in the normalized copy every free-text field is null or a
    string of at least one and at most [cap] code units that starts the
    trimmed input and carries no leading white space. *)
Theorem normalized_text_within_cap g g' field cap :
  validateGameLogInput g = Ok g' ->
  (field, cap) ∈ textFields ->
  g' !! field = Some VNull
  \/ exists s t,
       getProp g field = VStr s
       /\ g' !! field = Some (VStr t)
       /\ (1 <= length t <= cap)%nat
       /\ t `prefix_of` trim s
       /\ noLeadingWhiteSpace t.
Proof.
  intros Hv Hin.
  destruct (validate_ok_text _ _ _ _ Hv Hin) as (r & Hr & ->).
  destruct (getProp g field) as [| |b|n|s] eqn:Hf; try (simpl in Hr; discriminate).
  - simpl in Hr. injection Hr as <-. by left.
  - simpl in Hr. injection Hr as <-. by left.
  - rewrite sanitizeText_string in Hr. injection Hr as <-.
    destruct (take cap (trim s)) as [|c t] eqn:Ht; [by left|].
    right. exists s, (c :: t). rewrite <- Ht.
    repeat apply conj; try done.
    + rewrite Ht. simpl. lia.
    + rewrite length_take. lia.
    + apply prefix_take.
    + apply take_no_leading, trim_no_leading.
Qed.

(** The theorem at the sample cut right after a space: 100 code units
    are kept. *)
Lemma normalized_text_within_cap_witness :
  exists g',
    validateGameLogInput entrySpaceAtCap = Ok g'
    /\ (g' !! "rooted_for" = Some VNull
        \/ exists s t,
             getProp entrySpaceAtCap "rooted_for" = VStr s
             /\ g' !! "rooted_for" = Some (VStr t)
             /\ (1 <= length t <= 100)%nat
             /\ t `prefix_of` trim s
             /\ noLeadingWhiteSpace t).
Proof.
  destruct (isOk_inv (validateGameLogInput entrySpaceAtCap)) as [g' Hv];
    [vm_compute; reflexivity|].
  exists g'. split; [exact Hv|].
  apply (normalized_text_within_cap _ _ _ _ Hv).
  unfold textFields. set_solver.
Defined.

Lemma sanitizeText_short_fixed cap t r :
  (length t <= cap)%nat ->
  sanitizeText cap (VStr t) = Ok r -> sanitizeText cap r = Ok r.
Proof.
  intros Hlen. rewrite sanitizeText_string, take_ge by (pose proof (trim_length t); lia).
  intros [= <-]. destruct (trim t) as [|c t'] eqn:Ht; [done|].
  rewrite sanitizeText_string, <- Ht, trim_trim.
  rewrite take_ge by (pose proof (trim_length t); lia). by rewrite Ht.
Qed.

Lemma sanitizeText_twice cap v r1 r2 :
  sanitizeText cap v = Ok r1 -> sanitizeText cap r1 = Ok r2 ->
  sanitizeText cap r2 = Ok r2.
Proof.
  destruct v as [| |b|n|s]; try (simpl; discriminate).
  - simpl. intros [= <-]. simpl. by intros [= <-].
  - simpl. intros [= <-]. simpl. by intros [= <-].
  - rewrite sanitizeText_string. intros [= <-].
    destruct (take cap (trim s)) as [|c t] eqn:Ht.
    + simpl. by intros [= <-].
    + apply sanitizeText_short_fixed. rewrite <- Ht, length_take. lia.
Qed.

(** The checks of the validator read [game_id], [mode] and [rating]
    only, and the normalized copy has them unchanged. *)
Lemma validate_with_texts g c n r :
  truthy (getProp g "game_id") = true ->
  truthy (getProp g "mode") = true ->
  includes [attended; watched] (getProp g "mode") = true ->
  ratingRejected (getProp g "rating") = false ->
  sanitizeText 255 (getProp g "company") = Ok c ->
  sanitizeText 1000 (getProp g "notes") = Ok n ->
  sanitizeText 100 (getProp g "rooted_for") = Ok r ->
  validateGameLogInput g
  = Ok (<["rooted_for" := r]> (<["notes" := n]> (<["company" := c]> g))).
Proof.
  intros Hg Hm Hi Hr Hc Hn Hf. unfold validateGameLogInput.
  by rewrite Hg, Hm, Hi, Hr, Hc, Hn, Hf.
Qed.

(** X11: a normalized copy is itself accepted by the validator, and
    normalizing twice reaches a fixed point: the second copy validates to
    itself. *)
Theorem normalization_settles g g' :
  validateGameLogInput g = Ok g' ->
  exists g'',
    validateGameLogInput g' = Ok g''
    /\ validateGameLogInput g'' = Ok g''.
Proof.
  intros Hv.
  destruct (validate_ok_inv _ _ Hv) as (Hg & Hm & Hi & Hr & c & n & r & Hc & Hn & Hf & ->).
  set (g1 := <["rooted_for" := r]> (<["notes" := n]> (<["company" := c]> g))).
  assert (Hsame : forall k, k <> "company" -> k <> "notes" -> k <> "rooted_for" ->
                            getProp g1 k = getProp g k).
  { intros k ? ? ?. unfold g1. by rewrite !getProp_insert_ne. }
  assert (H1c : getProp g1 "company" = c)
    by (unfold g1; by rewrite !getProp_insert_ne, getProp_insert_eq by done).
  assert (H1n : getProp g1 "notes" = n)
    by (unfold g1; by rewrite getProp_insert_ne, getProp_insert_eq by done).
  assert (H1r : getProp g1 "rooted_for" = r)
    by (unfold g1; by rewrite getProp_insert_eq).
  assert (Hout : forall cap v x, sanitizeText cap v = Ok x ->
                   exists y, sanitizeText cap x = Ok y).
  { intros cap v x Hx. destruct v; try (simpl in Hx; discriminate).
    - simpl in Hx. injection Hx as <-. simpl. eauto.
    - simpl in Hx. injection Hx as <-. simpl. eauto.
    - rewrite sanitizeText_string in Hx. injection Hx as <-.
      destruct (take cap (trim s)); [simpl; eauto|].
      rewrite sanitizeText_string. eauto. }
  destruct (Hout _ _ _ Hc) as [c2 Hc2].
  destruct (Hout _ _ _ Hn) as [n2 Hn2].
  destruct (Hout _ _ _ Hf) as [r2 Hr2].
  set (g2 := <["rooted_for" := r2]> (<["notes" := n2]> (<["company" := c2]> g1))).
  exists g2. split.
  - apply validate_with_texts; rewrite ?Hsame by done; try done;
      by rewrite ?H1c, ?H1n, ?H1r.
  - assert (H2c : g2 !! "company" = Some c2)
      by (unfold g2; by rewrite !lookup_insert_ne, lookup_insert_eq by done).
    assert (H2n : g2 !! "notes" = Some n2)
      by (unfold g2; by rewrite lookup_insert_ne, lookup_insert_eq by done).
    assert (H2r : g2 !! "rooted_for" = Some r2)
      by (unfold g2; by rewrite lookup_insert_eq).
    assert (Hsame2 : forall k, k <> "company" -> k <> "notes" -> k <> "rooted_for" ->
                               getProp g2 k = getProp g k).
    { intros k ? ? ?. unfold g2. rewrite !getProp_insert_ne by done. by apply Hsame. }
    assert (S2c : sanitizeText 255 (getProp g2 "company") = Ok c2).
    { unfold getProp. rewrite H2c. simpl. by apply (sanitizeText_twice _ _ _ _ Hc). }
    assert (S2n : sanitizeText 1000 (getProp g2 "notes") = Ok n2).
    { unfold getProp. rewrite H2n. simpl. by apply (sanitizeText_twice _ _ _ _ Hn). }
    assert (S2r : sanitizeText 100 (getProp g2 "rooted_for") = Ok r2).
    { unfold getProp. rewrite H2r. simpl. by apply (sanitizeText_twice _ _ _ _ Hf). }
    rewrite (validate_with_texts g2 c2 n2 r2); try done;
      [|by rewrite Hsame2..].
    by rewrite (insert_id g2 "company"), (insert_id g2 "notes"),
         (insert_id g2 "rooted_for").
Qed.

(** The theorem at the sample cut right after a space. *)
Lemma normalization_settles_witness :
  exists g' g'',
    validateGameLogInput entrySpaceAtCap = Ok g'
    /\ validateGameLogInput g' = Ok g''
    /\ validateGameLogInput g'' = Ok g''.
Proof.
  destruct (isOk_inv (validateGameLogInput entrySpaceAtCap)) as [g' Hv];
    [vm_compute; reflexivity|].
  destruct (normalization_settles _ _ Hv) as (g'' & H1 & H2).
  by exists g', g''.
Defined.

End MoreValidator.

Section MoreHooks.

Implicit Types (u : User) (g : Obj) (remote : Remote) (tr : list Request).

(** A name is none of the listed ones. *)
Ltac not_listed :=
  repeat (apply not_elem_of_cons; split; [done|]); apply not_elem_of_nil.

Lemma msg_required_ne_mode : msg_required <> msg_mode.
Proof. vm_compute. discriminate. Qed.

Lemma msg_required_ne_rating : msg_required <> msg_rating.
Proof. vm_compute. discriminate. Qed.

Lemma msg_mode_ne_rating : msg_mode <> msg_rating.
Proof. vm_compute. discriminate. Qed.

(** X12: the checks are reported in order.  For a candidate of the
    declared type, the error is "required" exactly when [game_id] or
    [mode] is missing, whatever else is wrong; it is "invalid mode"
    exactly when both are there and the mode is not an allowed one; and
    it is "rating" exactly when those two checks pass and the rating is
    present without being an integer between 1 and 5. *)
Theorem validation_errors_in_order g :
  hasDeclaredType g ->
  (validateGameLogInput g = Throw (Error msg_required)
   <-> missing (getProp g "game_id") \/ missing (getProp g "mode"))
  /\ (validateGameLogInput g = Throw (Error msg_mode)
      <-> ~ missing (getProp g "game_id")
          /\ ~ missing (getProp g "mode")
          /\ ~ modeAllowed (getProp g "mode"))
  /\ (validateGameLogInput g = Throw (Error msg_rating)
      <-> ~ missing (getProp g "game_id")
          /\ modeAllowed (getProp g "mode")
          /\ ~ nullish (getProp g "rating")
          /\ ~ integerBetween 1 5 (getProp g "rating")).
Proof.
  intros (Tg & Tm & _).
  pose proof (truthy_string_or_nullish _ Tg) as Hg.
  pose proof (truthy_string_or_nullish _ Tm) as Hm.
  pose proof (includes_modes (getProp g "mode")) as Hi.
  pose proof (ratingRejected_false (getProp g "rating")) as Hr.
  pose proof msg_required_ne_mode. pose proof msg_required_ne_rating.
  pose proof msg_mode_ne_rating.
  unfold validateGameLogInput.
  destruct (truthy (getProp g "game_id")) eqn:Eg; cbn [negb orb].
  2: { assert (missing (getProp g "game_id")) by (by apply Hg).
       repeat split; try done; try tauto; try (intros [= ?]; congruence). }
  assert (~ missing (getProp g "game_id")) by (intros Hx%Hg; congruence).
  destruct (truthy (getProp g "mode")) eqn:Em; cbn [negb orb].
  2: { assert (Hmm : missing (getProp g "mode")) by (by apply Hm).
       repeat split; try done; try tauto; try (intros [= ?]; congruence).
       intros (_ & [Hx|Hx] & _); rewrite Hx in Hmm;
         destruct Hmm as [[?|?]|?]; discriminate. }
  assert (~ missing (getProp g "mode")) by (intros Hx%Hm; congruence).
  destruct (includes [attended; watched] (getProp g "mode")) eqn:Ei; cbn [negb].
  2: { assert (~ modeAllowed (getProp g "mode")) by (intros Hx%Hi; congruence).
       repeat split; try done; try tauto; try (intros [= ?]; congruence). }
  assert (modeAllowed (getProp g "mode")) by (by apply Hi).
  destruct (ratingRejected (getProp g "rating")) eqn:Er.
  { assert (~ (nullish (getProp g "rating")
               \/ integerBetween 1 5 (getProp g "rating")))
      by (intros Hx%Hr; congruence).
    repeat split; try done; try tauto; try (intros [= ?]; congruence). }
  assert (nullish (getProp g "rating") \/ integerBetween 1 5 (getProp g "rating"))
    by (by apply Hr).
  assert (Hno : forall m, bindR (sanitizeText 255 (getProp g "company"))
             (fun company => bindR (sanitizeText 1000 (getProp g "notes"))
               (fun notes => bindR (sanitizeText 100 (getProp g "rooted_for"))
                 (fun rooted_for =>
                    Ok (<["rooted_for" := rooted_for]>
                          (<["notes" := notes]> (<["company" := company]> g))))))
             <> Throw (Error m)).
  { intros m.
    destruct (sanitizeText 255 _) as [c|e1] eqn:S1; cbn [bindR];
      [|apply sanitizeText_throws in S1; congruence].
    destruct (sanitizeText 1000 _) as [n|e2] eqn:S2; cbn [bindR];
      [|apply sanitizeText_throws in S2; congruence].
    destruct (sanitizeText 100 _) as [r|e3] eqn:S3; cbn [bindR];
      [|apply sanitizeText_throws in S3; congruence].
    discriminate. }
  repeat split; try done; try tauto;
    try (intros; exfalso; eapply Hno; eassumption).
Qed.

(** The theorem at the sample with a rating of 6: its mode and game are
    fine, so the error is the one about the rating. *)
Lemma validation_errors_in_order_witness :
  validateGameLogInput entrySix = Throw (Error msg_rating)
  <-> ~ missing (getProp entrySix "game_id")
      /\ modeAllowed (getProp entrySix "mode")
      /\ ~ nullish (getProp entrySix "rating")
      /\ ~ integerBetween 1 5 (getProp entrySix "rating").
Proof.
  refine (proj2 (proj2 (validation_errors_in_order entrySix _))).
  unfold hasDeclaredType, stringOrNullish, numberOrNullish, nullish.
  repeat split; vm_compute; eauto.
Defined.

(** X1: the delete operation fails with the authentication error when
    there is no session and with the "id is required" error when the id
    is empty, in both cases without a call; otherwise it issues exactly
    one delete filtered by (id = target, user_id = session identity) and
    returns the target id when the store answers without error, or
    throws the error of the store. *)
Theorem delete_request :
  (forall gameLogId remote tr,
      useDeleteGameLog.mutationFn None gameLogId remote tr
      = (Throw (Error msg_auth_delete), tr))
  /\ (forall u remote tr,
        useDeleteGameLog.mutationFn (Some u) [] remote tr
        = (Throw (Error msg_id_delete), tr))
  /\ (forall u c t remote tr,
        let request :=
          Delete table_logs [("id", VStr (c :: t)); ("user_id", VStr (uid u))] in
        useDeleteGameLog.mutationFn (Some u) (c :: t) remote tr
        = (match resp_error (remote request) with
           | Some e => Throw (RemoteError e)
           | None => Ok (c :: t)
           end, tr ++ [request])).
Proof.
  split; [done|]. split; [done|].
  intros u c t remote tr request.
  unfold useDeleteGameLog.mutationFn, bind, call. cbn [truthy negb]. fold request.
  by destruct (resp_error (remote request)).
Qed.

(** X14: an operation reports success only when the store answered its
    call without error.  A list for a user, a create, an update or a
    delete that returns normally has issued exactly one call, the answer
    to that call carried no error, and the value returned is the data of
    the answer (for the delete: the id that was passed in). *)
Theorem success_means_store_accepted remote tr :
  (forall u r tr',
      useGameLogs.queryFn (Some u) remote tr = (Ok r, tr') ->
      exists request,
        tr' = tr ++ [request]
        /\ resp_error (remote request) = None
        /\ r = resp_data (remote request))
  /\ (forall user g r tr',
        useAddGameLog.mutationFn user g remote tr = (Ok r, tr') ->
        exists request,
          tr' = tr ++ [request]
          /\ resp_error (remote request) = None
          /\ r = resp_data (remote request))
  /\ (forall clock user g r tr',
        useUpdateGameLog.mutationFn clock user g remote tr = (Ok r, tr') ->
        exists request,
          tr' = tr ++ [request]
          /\ resp_error (remote request) = None
          /\ r = resp_data (remote request))
  /\ (forall user gameLogId r tr',
        useDeleteGameLog.mutationFn user gameLogId remote tr = (Ok r, tr') ->
        exists request,
          tr' = tr ++ [request]
          /\ resp_error (remote request) = None
          /\ r = gameLogId).
Proof.
  repeat apply conj.
  - intros u r tr'. unfold useGameLogs.queryFn, bind, call.
    rewrite unwrap_run. intros [= Hr <-]. eexists. split; [done|].
    destruct (resp_error _); [discriminate|]. by injection Hr as <-.
  - intros [u|] g r tr'; [|discriminate].
    unfold useAddGameLog.mutationFn, bind, liftR, call.
    destruct (validateGameLogInput g) as [validated|e]; [|discriminate].
    rewrite unwrap_run. intros [= Hr <-]. eexists. split; [done|].
    destruct (resp_error _); [discriminate|]. by injection Hr as <-.
  - intros clock [u|] g r tr'; [|discriminate].
    unfold useUpdateGameLog.mutationFn, bind, liftR, call.
    destruct (truthy (getProp g "id")); cbn [negb]; [|discriminate].
    destruct (validateGameLogInput _) as [validated|e]; [|discriminate].
    rewrite unwrap_run. intros [= Hr <-]. eexists. split; [done|].
    destruct (resp_error _); [discriminate|]. by injection Hr as <-.
  - intros [u|] gameLogId r tr'; [|discriminate].
    unfold useDeleteGameLog.mutationFn, bind, call.
    destruct (truthy (VStr gameLogId)); cbn [negb]; [|discriminate].
    destruct (resp_error _) eqn:He; [discriminate|].
    intros [= <- <-]. eexists. by split.
Qed.

(** The theorem at the sample delete, the remote accepting. *)
Lemma success_means_store_accepted_witness :
  exists request,
    (useDeleteGameLog.mutationFn (Some userU) (lit "E") acceptAll []).2
    = [] ++ [request]
    /\ resp_error (acceptAll request) = None.
Proof.
  destruct (success_means_store_accepted acceptAll []) as (_ & _ & _ & H).
  destruct (H (Some userU) (lit "E") (lit "E")
              [Delete table_logs [("id", VStr (lit "E")); ("user_id", VStr (lit "U"))]]
              eq_refl) as (request & Htr & He & Hr).
  exists request. split; [exact Htr | exact He].
Defined.

(** A property the validator does not read passes through it. *)
Lemma validate_insert_other g k v :
  k ∉ ["game_id"; "mode"; "rating"; "company"; "notes"; "rooted_for"] ->
  validateGameLogInput (<[k := v]> g)
  = match validateGameLogInput g with
    | Ok g' => Ok (<[k := v]> g')
    | Throw e => Throw e
    end.
Proof.
  intros Hk.
  assert (k <> "game_id" /\ k <> "mode" /\ k <> "rating" /\ k <> "company"
          /\ k <> "notes" /\ k <> "rooted_for") as (?&?&?&?&?&?)
    by (repeat apply conj; intros ->; apply Hk; set_solver).
  unfold validateGameLogInput. rewrite !getProp_insert_ne by done.
  destruct (negb (truthy (getProp g "game_id")) || negb (truthy (getProp g "mode")));
    [done|].
  destruct (negb (includes [attended; watched] (getProp g "mode"))); [done|].
  destruct (ratingRejected (getProp g "rating")); [done|].
  destruct (sanitizeText 255 (getProp g "company")) as [c|]; [|done].
  destruct (sanitizeText 1000 (getProp g "notes")) as [n|]; [|done].
  destruct (sanitizeText 100 (getProp g "rooted_for")) as [r|]; [|done].
  cbn [bindR]. f_equal.
  rewrite (insert_insert_ne g "company" k) by done.
  rewrite (insert_insert_ne _ "notes" k) by done.
  by rewrite (insert_insert_ne _ "rooted_for" k) by done.
Qed.

(** X8: whatever [user_id] the caller puts into the entry, the create
    operation behaves the same: same result, same call, same row. *)
Theorem create_ignores_supplied_user_id user g v remote tr :
  useAddGameLog.mutationFn user (<["user_id" := v]> g) remote tr
  = useAddGameLog.mutationFn user g remote tr.
Proof.
  destruct user as [u|]; [|done]. unfold useAddGameLog.mutationFn, bind, liftR.
  rewrite validate_insert_other by not_listed.
  destruct (validateGameLogInput g) as [validated|e]; [|done].
  by rewrite insert_insert_eq.
Qed.

(** X9: every other property of the entry reaches the store as the
    caller wrote it.  The inserted row has the properties of the entry
    plus company, notes, rooted_for and user_id, and each property other
    than these four, an [id] or a [created_at] for instance, has the
    value the caller supplied. *)
Theorem create_writes_other_properties u g validated remote tr :
  validateGameLogInput g = Ok validated ->
  exists res row,
    useAddGameLog.mutationFn (Some u) g remote tr
    = (res, tr ++ [Insert table_logs row])
    /\ dom row = dom g ∪ {[ "company"; "notes"; "rooted_for"; "user_id" ]}
    /\ forall k, k ∉ ["company"; "notes"; "rooted_for"; "user_id"] ->
                 row !! k = g !! k.
Proof.
  intros Hv. unfold useAddGameLog.mutationFn, bind, liftR, call.
  rewrite Hv, unwrap_run. eexists _, _. split; [reflexivity|].
  apply validate_ok_inv in Hv as (_&_&_&_&c&n&r&_&_&_&->).
  split.
  - rewrite !dom_insert_L. apply set_eq. intros x.
    rewrite !elem_of_union, !elem_of_singleton. tauto.
  - intros k Hk.
    assert (k <> "company" /\ k <> "notes" /\ k <> "rooted_for"
            /\ k <> "user_id") as (?&?&?&?)
      by (repeat apply conj; intros ->; apply Hk; set_solver).
    by rewrite !lookup_insert_ne by done.
Qed.

(** The theorem at the sample edit, which carries an [id]: the row is
    written with that [id]. *)
Lemma create_writes_other_properties_witness :
  exists res row,
    useAddGameLog.mutationFn (Some userU) entryEdit acceptAll []
    = (res, [] ++ [Insert table_logs row])
    /\ row !! "id" = Some (VStr (lit "E")).
Proof.
  destruct (isOk_inv (validateGameLogInput entryEdit)) as [validated Hv];
    [vm_compute; reflexivity|].
  destruct (create_writes_other_properties userU entryEdit validated acceptAll [] Hv)
    as (res & row & Hm & _ & Hk).
  exists res, row. split; [exact Hm|].
  rewrite Hk by not_listed. vm_compute. reflexivity.
Defined.

(** X13: the update operation reads [id], [mode], [company], [rating],
    [rooted_for] and [notes] and nothing else: a [game_id], a [user_id]
    or any other property in its argument changes neither the result nor
    the call. *)
Theorem update_ignores_other_properties clock user g k v remote tr :
  k ∉ ["id"; "mode"; "company"; "rating"; "rooted_for"; "notes"] ->
  useUpdateGameLog.mutationFn clock user (<[k := v]> g) remote tr
  = useUpdateGameLog.mutationFn clock user g remote tr.
Proof.
  intros Hk.
  assert (k <> "id" /\ k <> "mode" /\ k <> "company" /\ k <> "rating"
          /\ k <> "rooted_for" /\ k <> "notes") as (?&?&?&?&?&?)
    by (repeat apply conj; intros ->; apply Hk; set_solver).
  destruct user as [u|]; [|done]. unfold useUpdateGameLog.mutationFn.
  rewrite getProp_insert_ne by done.
  destruct (negb (truthy (getProp g "id"))); [done|].
  destruct (decide (k = "game_id")) as [->|Hne].
  - by rewrite insert_insert_eq.
  - rewrite (insert_insert_ne _ "game_id" k) by done.
    unfold bind, liftR. rewrite validate_insert_other by not_listed.
    destruct (validateGameLogInput _) as [validated|e]; [|done].
    by rewrite !getProp_insert_ne by done.
Qed.

(** The theorem at the sample edit with another [game_id]. *)
Lemma update_ignores_other_properties_witness :
  useUpdateGameLog.mutationFn sampleNow (Some userU)
    (<["game_id" := VStr (lit "G2")]> entryEdit) refuseAll []
  = useUpdateGameLog.mutationFn sampleNow (Some userU) entryEdit refuseAll [].
Proof.
  apply update_ignores_other_properties. not_listed.
Defined.

End MoreHooks.

(* ===================================================================== *)
(** ** Further properties of the cache handling                            *)
(* ===================================================================== *)

Section MoreCache.

Implicit Types (c : QueryCache) (k : QueryKey) (q : QueryState).

(** The life cycle, outcome by outcome. *)
Lemma mutate_run {V R C} (opts : MutationOptions V R C) variables remote c tr :
  mutate opts variables remote c tr
  = ((mutationFn opts variables remote tr).1,
     onSettled opts
       (match (mutationFn opts variables remote tr).1 with
        | Ok r =>
            onSuccess opts r variables (onMutate opts variables c).1
              (onMutate opts variables c).2
        | Throw e =>
            onError opts e variables (Some (onMutate opts variables c).1)
              (onMutate opts variables c).2
        end),
     (mutationFn opts variables remote tr).2).
Proof.
  unfold mutate. destruct (onMutate opts variables c) as [ctx c1].
  by destruct (mutationFn opts variables remote tr) as [[r|e] tr'].
Qed.

Lemma getQueryData_onSettled c k :
  getQueryData k (useDeleteGameLog.onSettled c) = getQueryData k c.
Proof.
  unfold useDeleteGameLog.onSettled. by rewrite !getQueryData_invalidateQueries.
Qed.

(** The result, the cache and the trace of a delete. *)
Lemma delete_run user gameLogId remote c tr :
  mutate (useDeleteGameLog.options user) gameLogId remote c tr
  = ((useDeleteGameLog.mutationFn user gameLogId remote tr).1,
     useDeleteGameLog.onSettled
       (match (useDeleteGameLog.mutationFn user gameLogId remote tr).1 with
        | Ok _ => (useDeleteGameLog.onMutate user gameLogId c).2
        | Throw e =>
            useDeleteGameLog.onError user e gameLogId
              (Some (useDeleteGameLog.onMutate user gameLogId c).1)
              (useDeleteGameLog.onMutate user gameLogId c).2
        end),
     (useDeleteGameLog.mutationFn user gameLogId remote tr).2).
Proof. by rewrite mutate_run. Qed.

(** X2: when the delete succeeds the optimistic patch stands: the id
    passed in is returned, one delete call has been issued, every slot
    holds the data the patch left there, and the cached entry list holds
    no element with the deleted id. *)
Theorem delete_success_keeps_patch user gameLogId remote c tr r :
  (mutate (useDeleteGameLog.options user) gameLogId remote c tr).1.1 = Ok r ->
  let out := mutate (useDeleteGameLog.options user) gameLogId remote c tr in
  r = gameLogId
  /\ (exists u,
        user = Some u
        /\ out.2 = tr ++ [Delete table_logs [("id", VStr gameLogId);
                                             ("user_id", VStr (uid u))]])
  /\ (forall k,
        getQueryData k out.1.2
        = getQueryData k (useDeleteGameLog.onMutate user gameLogId c).2)
  /\ (exists l,
        getQueryData (entryListKey user) out.1.2 = Some l
        /\ forall x, x ∈ l -> item_id x <> VStr gameLogId).
Proof.
  intros Hr out. unfold out. clear out.
  rewrite delete_run in *. cbn [fst snd] in *. rewrite Hr.
  assert (Hu : exists u, user = Some u /\ truthy (VStr gameLogId) = true).
  { destruct user as [u|]; [|discriminate]. exists u. split; [done|].
    unfold useDeleteGameLog.mutationFn in Hr.
    by destruct (truthy (VStr gameLogId)). }
  destruct Hu as (u & -> & Hid).
  unfold useDeleteGameLog.mutationFn, bind, call in *.
  rewrite Hid in *. cbn [negb fst snd] in *.
  repeat apply conj.
  - destruct (resp_error _); [discriminate|]. by injection Hr as <-.
  - exists u. split; [done|]. by destruct (resp_error _).
  - intros k. apply getQueryData_onSettled.
  - rewrite getQueryData_onSettled, onMutate_data, decide_True by done.
    eexists. split; [reflexivity|]. intros x Hx.
    destruct (getQueryData (entryListKey (Some u)) c) as [l|];
      [|by apply elem_of_nil in Hx].
    apply filter_keeps in Hx as [_ Hx]. apply negb_true_iff in Hx.
    intros Heq%strictEqStr_true. congruence.
Qed.

(** The theorem on the sample view, the remote accepting the delete. *)
Lemma delete_success_keeps_patch_witness :
  exists l,
    getQueryData keyLogsU
      (mutate (useDeleteGameLog.options (Some userU)) (lit "E") acceptAll
         sampleCache []).1.2 = Some l
    /\ forall x, x ∈ l -> item_id x <> VStr (lit "E").
Proof.
  exact (proj2 (proj2 (proj2
    (delete_success_keeps_patch (Some userU) (lit "E") acceptAll sampleCache []
       (lit "E") eq_refl)))).
Defined.

Lemma onError_lookup_other user err gameLogId context c k :
  k <> entryListKey user -> k <> loggedGamesKey user ->
  useDeleteGameLog.onError user err gameLogId context c !! k = c !! k.
Proof.
  intros H1 H2. unfold useDeleteGameLog.onError.
  fold (entryListKey user). fold (loggedGamesKey user).
  destruct (context ≫= useDeleteGameLog.previousGameLogs),
    (context ≫= useDeleteGameLog.previousLoggedGames);
    by rewrite ?lookup_setQueryData, ?decide_False by done.
Qed.

Lemma loggedGamesKey_prefix user : key_logged_games `prefix_of` loggedGamesKey user.
Proof. by exists [userIdPart user]. Qed.

Lemma entryListKey_prefix user : key_game_logs `prefix_of` entryListKey user.
Proof. by exists [userIdPart user]. Qed.

(** X3: a delete, whatever its outcome, leaves every query outside the
    two scopes exactly as it was (data and flags), and leaves the data of
    every entry-list query other than the one of the user unchanged. *)
Theorem delete_leaves_other_queries user gameLogId remote c tr k :
  let c' := (mutate (useDeleteGameLog.options user) gameLogId remote c tr).1.2 in
  (~ key_game_logs `prefix_of` k -> ~ key_logged_games `prefix_of` k ->
   c' !! k = c !! k)
  /\ (key_game_logs `prefix_of` k -> k <> entryListKey user ->
      getQueryData k c' = getQueryData k c).
Proof.
  intros c'. unfold c'. rewrite delete_run. cbn [fst snd]. split.
  - intros Hl Hg.
    assert (Hml : keyMatches key_game_logs k = false)
      by (apply not_true_iff_false; by rewrite keyMatches_prefix).
    assert (Hmg : keyMatches key_logged_games k = false)
      by (apply not_true_iff_false; by rewrite keyMatches_prefix).
    assert (H1 : k <> entryListKey user)
      by (intros ->; apply Hl, entryListKey_prefix).
    assert (H2 : k <> loggedGamesKey user)
      by (intros ->; apply Hg, loggedGamesKey_prefix).
    assert (Hc1 : (useDeleteGameLog.onMutate user gameLogId c).2 !! k = c !! k).
    { rewrite onMutate_lookup. fold (entryListKey user).
      rewrite decide_False, Hmg by done.
      unfold cancelQueries. rewrite !lookup_updateMatching, Hml, Hmg.
      by destruct (c !! k). }
    rewrite onSettled_lookup, Hml, Hmg. cbn [orb].
    destruct (useDeleteGameLog.mutationFn user gameLogId remote tr).1.
    + rewrite Hc1. by destruct (c !! k).
    + rewrite onError_lookup_other, Hc1 by done. by destruct (c !! k).
  - intros Hl Hne. rewrite getQueryData_onSettled.
    assert (Hmg : keyMatches key_logged_games k = false).
    { apply not_true_iff_false. rewrite keyMatches_prefix.
      intros [l2 H2]. destruct Hl as [l1 H1]. rewrite H1 in H2.
      vm_compute in H2. discriminate. }
    assert (H2 : k <> loggedGamesKey user).
    { intros ->. apply not_true_iff_false in Hmg. apply Hmg.
      apply keyMatches_prefix, loggedGamesKey_prefix. }
    assert (Hc1 : getQueryData k (useDeleteGameLog.onMutate user gameLogId c).2
                  = getQueryData k c)
      by (by rewrite onMutate_data, decide_False, Hmg).
    destruct (useDeleteGameLog.mutationFn user gameLogId remote tr).1; [done|].
    unfold getQueryData at 1. by rewrite onError_lookup_other.
Qed.

(** X4: when the delete fails, the two slots that were snapshotted, the
    entry list of the user and [['logged-games', user?.id]], hold again
    the lists they held before the delete started. *)
Theorem delete_failure_restores_snapshots user gameLogId remote c tr e k l :
  (mutate (useDeleteGameLog.options user) gameLogId remote c tr).1.1 = Throw e ->
  k = entryListKey user \/ k = loggedGamesKey user ->
  getQueryData k c = Some l ->
  getQueryData k
    (mutate (useDeleteGameLog.options user) gameLogId remote c tr).1.2 = Some l.
Proof.
  rewrite delete_run. cbn [fst snd]. intros -> Hk Hl.
  rewrite getQueryData_onSettled, onError_data, onMutate_context.
  cbn [useDeleteGameLog.previousGameLogs useDeleteGameLog.previousLoggedGames].
  destruct Hk as [-> | ->]; rewrite Hl.
  - rewrite decide_True by done.
    destruct (getQueryData (loggedGamesKey user) c); [|done].
    rewrite decide_False; [done|]. apply entryListKey_ne_loggedGamesKey.
  - by rewrite decide_True.
Qed.

(** The theorem on the sample view, the remote refusing the delete. *)
Lemma delete_failure_restores_snapshots_witness :
  getQueryData keyLogsU
    (mutate (useDeleteGameLog.options (Some userU)) (lit "E") refuseAll
       sampleCache []).1.2 = Some [itemE; itemF].
Proof.
  apply (delete_failure_restores_snapshots (Some userU) (lit "E") refuseAll
           sampleCache [] (RemoteError (lit "refused")) keyLogsU [itemE; itemF]).
  - reflexivity.
  - by left.
  - vm_compute. reflexivity.
Defined.

(** The gap of the rollback in general: when the delete fails, for whatever reason (the store refuses
    it, or there is no session or no id and no call is made at all), a
    logged-games query under any key other than [['logged-games',
    user?.id]] keeps the patched list: what was cached minus the elements
    linked to the id. *)
Theorem delete_failure_leaves_filtered_queries_patched
    user gameLogId remote c tr e k q :
  (mutate (useDeleteGameLog.options user) gameLogId remote c tr).1.1 = Throw e ->
  key_logged_games `prefix_of` k ->
  k <> loggedGamesKey user ->
  c !! k = Some q ->
  getQueryData k
    (mutate (useDeleteGameLog.options user) gameLogId remote c tr).1.2
  = useDeleteGameLog.dropLoggedGame gameLogId (data q).
Proof.
  rewrite delete_run. cbn [fst snd]. intros -> Hpre Hne Hq.
  assert (H1 : k <> entryListKey user)
    by (intros ->; by apply (entryListKey_not_logged_games user)).
  rewrite getQueryData_onSettled. unfold getQueryData at 1.
  rewrite onError_lookup_other by done.
  fold (getQueryData k (useDeleteGameLog.onMutate user gameLogId c).2).
  rewrite onMutate_data, decide_False by done.
  apply keyMatches_prefix in Hpre. by rewrite Hpre, Hq.
Qed.

(** The theorem on the sample view when nobody is signed in: no call is
    made, and the filtered query has lost the game of [E] all the same. *)
Lemma delete_failure_leaves_filtered_queries_patched_witness :
  (mutate (useDeleteGameLog.options None) (lit "E") acceptAll sampleCache []).2 = []
  /\ getQueryData keyGamesFiltered
       (mutate (useDeleteGameLog.options None) (lit "E") acceptAll
          sampleCache []).1.2
     = Some [gameF].
Proof.
  split; [reflexivity|].
  rewrite (delete_failure_leaves_filtered_queries_patched None (lit "E")
             acceptAll sampleCache [] (Error msg_auth_delete) keyGamesFiltered
             (loaded [gameE; gameF])).
  - vm_compute. reflexivity.
  - reflexivity.
  - exists [KStr (lit "U"); KFilters sampleFilters]. reflexivity.
  - intros H. vm_compute in H. discriminate.
  - vm_compute. reflexivity.
Defined.

Lemma filter_filter_comm {A} (f g : A -> bool) (l : list A) :
  List.filter f (List.filter g l) = List.filter g (List.filter f l).
Proof.
  induction l as [|x l IH]; [done|]. simpl.
  destruct (f x) eqn:Hf, (g x) eqn:Hg; simpl; rewrite ?Hf, ?Hg, IH; done.
Qed.

Lemma filter_filter_same {A} (f : A -> bool) (l : list A) :
  List.filter f (List.filter f l) = List.filter f l.
Proof.
  induction l as [|x l IH]; [done|]. simpl.
  destruct (f x) eqn:Hf; simpl; rewrite ?Hf, IH; done.
Qed.

(** The data after two optimistic patches in a row. *)
Lemma onMutate_twice_data user a b c k :
  getQueryData k
    (useDeleteGameLog.onMutate user a
       (useDeleteGameLog.onMutate user b c).2).2
  = if decide (k = entryListKey user)
    then useDeleteGameLog.dropLog a
           (useDeleteGameLog.dropLog b (getQueryData k c))
    else if keyMatches key_logged_games k
         then c !! k ≫= fun q =>
                useDeleteGameLog.dropLoggedGame a
                  (useDeleteGameLog.dropLoggedGame b (data q))
         else getQueryData k c.
Proof.
  rewrite onMutate_data.
  destruct (decide (k = entryListKey user)) as [->|Hne].
  - by rewrite onMutate_data, decide_True.
  - destruct (keyMatches key_logged_games k) eqn:Hm.
    + pose proof (onMutate_keeps_slots user b c k) as Hdom.
      pose proof (onMutate_data user b c k) as Hd.
      rewrite decide_False, Hm in Hd by done. unfold getQueryData in Hd.
      destruct ((useDeleteGameLog.onMutate user b c).2 !! k) as [q1|].
      * destruct (c !! k) as [q|].
        -- simpl in *. by rewrite Hd.
        -- exfalso. destruct Hdom as [Hdom _].
           destruct Hdom as [?|[? ?]]; [eauto|done..].
      * destruct (c !! k) as [q|]; [|done].
        exfalso. destruct Hdom as [_ Hdom].
        destruct Hdom as [? ?]; [eauto|done].
    + by rewrite onMutate_data, decide_False, Hm.
Qed.

(** X5: the optimistic patches of two deletes commute, and patching
    twice for the same id is the same as patching once: the data of every
    slot after the patch for [a] then [b] is the data after the patch for
    [b] then [a]. *)
Theorem optimistic_patches_commute user a b c k :
  getQueryData k
    (useDeleteGameLog.onMutate user a (useDeleteGameLog.onMutate user b c).2).2
  = getQueryData k
      (useDeleteGameLog.onMutate user b (useDeleteGameLog.onMutate user a c).2).2
  /\ getQueryData k
       (useDeleteGameLog.onMutate user a (useDeleteGameLog.onMutate user a c).2).2
     = getQueryData k (useDeleteGameLog.onMutate user a c).2.
Proof.
  rewrite !onMutate_twice_data, onMutate_data.
  unfold useDeleteGameLog.dropLog, useDeleteGameLog.dropLoggedGame.
  destruct (decide (k = entryListKey user)) as [->|Hne].
  - destruct (getQueryData (entryListKey user) c) as [l|]; [|done].
    split; [by rewrite filter_filter_comm | by rewrite filter_filter_same].
  - destruct (keyMatches key_logged_games k); [|done].
    destruct (c !! k) as [q|]; [|done]. simpl.
    destruct (data q) as [l|]; [|done].
    split; [by rewrite filter_filter_comm | by rewrite filter_filter_same].
Qed.

(** X7: the create and update operations write to the cache on success
    only.  When they fail the cache is what it was; when they succeed the
    data of every query is what it was, the entry-list queries are marked
    invalidated, and every other query, the logged-games queries among
    them, is untouched. *)
Theorem create_and_update_invalidate_on_success clock user g remote c tr :
  let touchesOnSuccessOnly (out : Result Payload * QueryCache * list Request) :=
    (forall e, out.1.1 = Throw e -> out.1.2 = c)
    /\ (forall k, getQueryData k out.1.2 = getQueryData k c)
    /\ (forall r k q,
          out.1.1 = Ok r -> out.1.2 !! k = Some q ->
          (key_game_logs `prefix_of` k -> isInvalidated q = true)
          /\ (~ key_game_logs `prefix_of` k -> c !! k = Some q)) in
  touchesOnSuccessOnly (mutate (useAddGameLog.options user) g remote c tr)
  /\ touchesOnSuccessOnly
       (mutate (useUpdateGameLog.options clock user) g remote c tr).
Proof.
  assert (Hinv : forall k q,
             invalidateQueries key_game_logs c !! k = Some q ->
             (key_game_logs `prefix_of` k -> isInvalidated q = true)
             /\ (~ key_game_logs `prefix_of` k -> c !! k = Some q)).
  { intros k q. unfold invalidateQueries. rewrite lookup_updateMatching.
    destruct (c !! k) as [q0|]; [|done]. simpl. intros [= <-]. split.
    - intros Hp%keyMatches_prefix. by rewrite Hp.
    - intros Hp. assert (Hm : keyMatches key_game_logs k = false)
        by (apply not_true_iff_false; by rewrite keyMatches_prefix).
      by rewrite Hm. }
  intros touchesOnSuccessOnly. unfold touchesOnSuccessOnly.
  rewrite !mutate_run. cbn [fst snd].
  cbn [useAddGameLog.options useUpdateGameLog.options
       onMutate onSuccess onError onSettled mutationFn fst snd].
  split.
  - destruct (useAddGameLog.mutationFn user g remote tr).1 as [r|e].
    + repeat apply conj; [done| |].
      * intros k. apply getQueryData_invalidateQueries.
      * intros r' k q _ Hq. by apply Hinv.
    + repeat apply conj; done.
  - destruct (useUpdateGameLog.mutationFn clock user g remote tr).1 as [r|e].
    + repeat apply conj; [done| |].
      * intros k. apply getQueryData_invalidateQueries.
      * intros r' k q _ Hq. by apply Hinv.
    + repeat apply conj; done.
Qed.

(** The theorem X3 on the sample view with a query of another scope:
    the delete leaves that query as it was. *)
Lemma delete_leaves_other_queries_witness :
  (mutate (useDeleteGameLog.options (Some userU)) (lit "E") refuseAll
     sampleCacheWithGames []).1.2 !! keyGames
  = sampleCacheWithGames !! keyGames.
Proof.
  apply (delete_leaves_other_queries (Some userU) (lit "E") refuseAll
           sampleCacheWithGames [] keyGames).
  - intros [l Hl]. vm_compute in Hl. discriminate.
  - intros [l Hl]. vm_compute in Hl. discriminate.
Defined.

(** The theorem X7 on the sample view, the remote refusing the insert:
    the cache is what it was. *)
Lemma create_and_update_invalidate_on_success_witness :
  (mutate (useAddGameLog.options (Some userU)) entryAlex refuseAll
     sampleCache []).1.2 = sampleCache.
Proof.
  destruct (create_and_update_invalidate_on_success sampleNow (Some userU)
              entryAlex refuseAll sampleCache []) as [[H _] _].
  apply (H (RemoteError (lit "refused"))). vm_compute. reflexivity.
Defined.

End MoreCache.

(* ===================================================================== *)
(** ** Properties of the diary view and of the welcome dialog              *)
(* ===================================================================== *)

Section View.

Lemma num_ge_denotes n z k : denotes n z -> num_ge n k = (k <=? z).
Proof.
  destruct n as [| |m e]; simpl; try done.
  destruct (Z.leb_spec 0 e) as [He|He]; [by intros <-|]. intros ->.
  assert (0 < 2 ^ (- e)) by (apply Z.pow_pos_nonneg; lia).
  destruct (Z.leb_spec k z), (Z.leb_spec (k * 2 ^ (- e)) (z * 2 ^ (- e)));
    try done; nia.
Qed.

Lemma denotes_truthy n z : denotes n z -> z <> 0 -> truthy (VNum n) = true.
Proof.
  destruct n as [| |m e]; simpl; try done.
  destruct (Z.leb_spec 0 e) as [He|He].
  - intros <- Hz. apply negb_true_iff, Z.eqb_neq. intros ->. lia.
  - intros -> Hz. apply negb_true_iff, Z.eqb_neq.
    assert (0 < 2 ^ (- e)) by (apply Z.pow_pos_nonneg; lia). nia.
Qed.

(** X15: the stars show the rating.  No rating, a rating of zero and NaN
    are rendered as "Not rated"; a rating that is an integer between 1
    and 5, which is every rating the validator lets through, is rendered
    as five stars of which exactly the first [rating] are filled. *)
Theorem stars_show_the_rating :
  Timeline.renderStarRating None = Timeline.NotRated
  /\ Timeline.renderStarRating (Some NumNaN) = Timeline.NotRated
  /\ (forall e, Timeline.renderStarRating (Some (NumFinite 0 e)) = Timeline.NotRated)
  /\ (forall n z,
        denotes n z -> 1 <= z <= 5 ->
        Timeline.renderStarRating (Some n) = Timeline.Stars (starsFilled z))
  /\ (forall n,
        ratingRejected (VNum n) = false ->
        exists z, 1 <= z <= 5
                  /\ Timeline.renderStarRating (Some n)
                     = Timeline.Stars (starsFilled z)).
Proof.
  assert (Hstars : forall n z,
             denotes n z -> 1 <= z <= 5 ->
             Timeline.renderStarRating (Some n) = Timeline.Stars (starsFilled z)).
  { intros n z Hd Hz. unfold Timeline.renderStarRating.
    rewrite (denotes_truthy n z Hd) by lia. cbn [negb List.map].
    rewrite !(num_ge_denotes n z _ Hd).
    assert (z = 1 \/ z = 2 \/ z = 3 \/ z = 4 \/ z = 5) as Hcases by lia.
    destruct Hcases as [->|[->|[->|[->| ->]]]]; reflexivity. }
  repeat apply conj; try done.
  intros n Hn. apply ratingRejected_false in Hn as [[Hn|Hn]|(n' & z & Hn & Hd & Hz)];
    try discriminate.
  injection Hn as <-. exists z. split; [done|]. by apply Hstars.
Qed.

(** The theorem at a rating of 3, written as 6 * 2^-1. *)
Lemma stars_show_the_rating_witness :
  Timeline.renderStarRating (Some (NumFinite 6 (-1)))
  = Timeline.Stars [true; true; true; false; false].
Proof.
  destruct stars_show_the_rating as (_ & _ & _ & H & _).
  apply (H (NumFinite 6 (-1)) 3); [reflexivity | lia].
Defined.

Lemma mul_compare_pos a b p : 0 < p -> (a * p ?= b * p) = (a ?= b).
Proof.
  intros Hp. destruct (Z.compare_spec a b), (Z.compare_spec (a * p) (b * p));
    try done; nia.
Qed.

Lemma num_compare_denotes a b za zb :
  denotes a za -> denotes b zb -> num_compare a b = Some (za ?= zb).
Proof.
  destruct a as [| |m1 e1], b as [| |m2 e2]; simpl; try done.
  intros Ha Hb. f_equal.
  set (e := Z.min e1 e2).
  assert (Hscale : forall m ei z,
             e <= ei ->
             (if 0 <=? ei then m * 2 ^ ei = z else m = z * 2 ^ (- ei)) ->
             if 0 <=? e
             then m * 2 ^ (ei - e) * 2 ^ e = z
             else m * 2 ^ (ei - e) = z * 2 ^ (- e)).
  { intros m ei z Hle Hz.
    destruct (Z.leb_spec 0 e) as [He|He].
    - destruct (Z.leb_spec 0 ei); [|lia]. subst z.
      rewrite <- Z.mul_assoc, <- Z.pow_add_r by lia.
      by replace (ei - e + e) with ei by lia.
    - destruct (Z.leb_spec 0 ei).
      + subst z. rewrite <- Z.mul_assoc, <- Z.pow_add_r by lia.
        by replace (ei + - e) with (ei - e) by lia.
      + subst m. rewrite <- Z.mul_assoc, <- Z.pow_add_r by lia.
        by replace (- ei + (ei - e)) with (- e) by lia. }
  pose proof (Hscale m1 e1 za (Z.le_min_l e1 e2) Ha) as H1.
  pose proof (Hscale m2 e2 zb (Z.le_min_r e1 e2) Hb) as H2.
  fold e in H1, H2. clearbody e.
  destruct (Z.leb_spec 0 e) as [He|He].
  - assert (0 < 2 ^ e) by (apply Z.pow_pos_nonneg; lia).
    rewrite <- H1, <- H2. symmetry. by apply mul_compare_pos.
  - assert (0 < 2 ^ (- e)) by (apply Z.pow_pos_nonneg; lia).
    rewrite H1, H2. by apply mul_compare_pos.
Qed.

Lemma winLossIndicator_scores isHomeTeam h a zh za :
  denotes h zh -> denotes a za ->
  Timeline.winLossIndicator isHomeTeam (Some h) (Some a)
  = resultSuffix (if isHomeTeam then zh ?= za else za ?= zh).
Proof.
  intros Hh Ha. unfold Timeline.winLossIndicator, num_strictNe, num_gtNum.
  rewrite (num_compare_denotes h a zh za Hh Ha),
          (num_compare_denotes a h za zh Ha Hh).
  rewrite (Z.compare_antisym zh za).
  by destruct isHomeTeam, (zh ?= za).
Qed.

(** X16: the rooted-for cell.  Without a team (null, the empty string or
    'none') it reads "No team".  Otherwise it shows the home team when
    the rooted team is the home team up to letter case and the away team
    in every other case, even when the rooted team is neither of the two;
    with whole-number scores the label ends in (W) when the shown team
    scored more, in (L) when it scored less and in nothing when the
    scores are level or a score is missing. *)
Theorem rooted_for_display
    (getTeamAbbreviation getTeamLogo : jsstring -> jsstring -> jsstring)
    (toLowerCase : jsstring -> jsstring)
    (homeTeam awayTeam : jsstring) (homeScore awayScore : option JsNumber) :
  let display :=
    Timeline.getRootedForDisplay getTeamAbbreviation getTeamLogo toLowerCase in
  let shown rooted :=
    if decide (toLowerCase rooted = toLowerCase homeTeam)
    then getTeamAbbreviation homeTeam (lit "MLB")
    else getTeamAbbreviation awayTeam (lit "MLB") in
  display None homeTeam awayTeam homeScore awayScore = Timeline.NoTeam
  /\ display (Some []) homeTeam awayTeam homeScore awayScore = Timeline.NoTeam
  /\ display (Some (lit "none")) homeTeam awayTeam homeScore awayScore
     = Timeline.NoTeam
  /\ (forall rooted,
        rooted <> [] -> rooted <> lit "none" ->
        (homeScore = None \/ awayScore = None) ->
        display (Some rooted) homeTeam awayTeam homeScore awayScore
        = Timeline.Team (getTeamLogo (shown rooted) (lit "MLB"))
            (shown rooted) (shown rooted))
  /\ (forall rooted h a zh za,
        rooted <> [] -> rooted <> lit "none" ->
        homeScore = Some h -> awayScore = Some a ->
        denotes h zh -> denotes a za ->
        display (Some rooted) homeTeam awayTeam homeScore awayScore
        = Timeline.Team (getTeamLogo (shown rooted) (lit "MLB"))
            (shown rooted)
            (shown rooted
             ++ resultSuffix
                  (if decide (toLowerCase rooted = toLowerCase homeTeam)
                   then zh ?= za else za ?= zh))).
Proof.
  intros display shown. unfold display, shown.
  assert (Hguard : forall rooted,
             rooted <> [] -> rooted <> lit "none" ->
             negb (truthy (VStr rooted)) || strictEqStr (VStr rooted) (lit "none")
             = false).
  { intros rooted H1 H2. apply orb_false_iff. split.
    - by destruct rooted.
    - apply not_true_iff_false. by rewrite strictEqStr_true; intros [= ?]. }
  repeat apply conj; try done.
  - intros rooted H1 H2 Hnull. unfold Timeline.getRootedForDisplay.
    rewrite (Hguard rooted H1 H2).
    assert (Hind : forall b, Timeline.winLossIndicator b homeScore awayScore = []).
    { intros b. destruct Hnull as [-> | ->]; [done|].
      unfold Timeline.winLossIndicator. by destruct homeScore. }
    rewrite Hind, app_nil_r.
    unfold bool_decide. by destruct (decide_rel _ _ _).
  - intros rooted h a zh za H1 H2 -> -> Hh Ha.
    unfold Timeline.getRootedForDisplay. rewrite (Hguard rooted H1 H2).
    rewrite (winLossIndicator_scores _ h a zh za Hh Ha).
    unfold bool_decide.
    by destruct (decide_rel _ _ _), (decide _).
Qed.

(** The theorem with a rooted team that is neither the home team nor
    the away team: the away team is shown, here as the loser of a 5 to 3
    game. *)
Lemma rooted_for_display_witness :
  Timeline.getRootedForDisplay (fun team _ => take 3 team) (fun abbr _ => abbr)
    (fun str => str)
    (Some (lit "Mets")) (lit "Yankees") (lit "Red Sox")
    (Some (NumFinite 5 0)) (Some (NumFinite 3 0))
  = Timeline.Team (lit "Red") (lit "Red") (lit "Red (L)").
Proof.
  destruct (rooted_for_display (fun team _ => take 3 team) (fun abbr _ => abbr)
              (fun str => str) (lit "Yankees") (lit "Red Sox")
              (Some (NumFinite 5 0)) (Some (NumFinite 3 0)))
    as (_ & _ & _ & _ & H).
  rewrite (H (lit "Mets") (NumFinite 5 0) (NumFinite 3 0) 5 3);
    try done; reflexivity.
Defined.

(** Once dismissed, the flag stays in the storage whatever follows. *)
Lemma welcome_flag_stays s evs :
  WelcomeModal.localStorage s !! WelcomeModal.storageKey = Some (lit "true") ->
  WelcomeModal.localStorage (WelcomeModal.run s evs) !! WelcomeModal.storageKey
  = Some (lit "true").
Proof.
  revert s. induction evs as [|ev evs IH]; intros s Hs; [done|].
  apply IH. destruct ev; simpl; [done|]. apply lookup_insert_eq.
Qed.

(** X17: the welcome dialog.  On a page load it opens exactly when the
    storage holds nothing, or the empty string, under 'hasSeenWelcome';
    once it has been dismissed it stays closed on every later page load,
    whatever loads and dismissals come in between; and dismissing it
    writes only that one key of the storage. *)
Theorem welcome_shown_until_dismissed :
  (forall storage,
      WelcomeModal.isOpen (WelcomeModal.mount storage) = true
      <-> storage !! WelcomeModal.storageKey = None
          \/ storage !! WelcomeModal.storageKey = Some [])
  /\ (forall s evs,
        WelcomeModal.isOpen
          (WelcomeModal.step
             (WelcomeModal.run (WelcomeModal.handleClose s) evs)
             WelcomeModal.Mount) = false)
  /\ (forall s k,
        k <> WelcomeModal.storageKey ->
        WelcomeModal.localStorage (WelcomeModal.handleClose s) !! k
        = WelcomeModal.localStorage s !! k)
  /\ (forall storage,
        WelcomeModal.localStorage (WelcomeModal.mount storage) = storage).
Proof.
  repeat apply conj.
  - intros storage. unfold WelcomeModal.mount, WelcomeModal.getItem. simpl.
    destruct (storage !! WelcomeModal.storageKey) as [[|ch t]|]; simpl;
      split; try done; try (intros [?|?]; discriminate); auto.
  - intros s evs. simpl. unfold WelcomeModal.mount, WelcomeModal.getItem. simpl.
    rewrite welcome_flag_stays; [done|]. simpl. apply lookup_insert_eq.
  - intros s k Hk. simpl. by rewrite lookup_insert_ne.
  - done.
Qed.

(** The theorem on a storage that holds another key: dismissing the
    dialog leaves that key alone. *)
Lemma welcome_shown_until_dismissed_witness :
  WelcomeModal.localStorage
    (WelcomeModal.handleClose
       (WelcomeModal.mount {[ "theme" := lit "dark" ]})) !! "theme"
  = Some (lit "dark").
Proof.
  destruct welcome_shown_until_dismissed as (_ & _ & H & _).
  rewrite H; [reflexivity | discriminate].
Defined.

(** The filter state always has its seven names. *)
Lemma filterRun_names start evs name :
  name ∈ Timeline.filterNames ->
  is_Some (start !! name) ->
  is_Some (foldl Timeline.filterStep start evs !! name).
Proof.
  intros Hname. revert start. induction evs as [|ev evs IH]; intros start Hs; [done|].
  simpl. apply IH. destruct ev as [key value|]; simpl.
  - unfold Timeline.handleFilterChange. rewrite lookup_insert.
    by destruct (decide (key = name)).
  - unfold Timeline.handleClearFilters, Timeline.filterNames in *.
    repeat (apply elem_of_cons in Hname as [->|Hname]; [vm_compute; eauto|]).
    by apply elem_of_nil in Hname.
Qed.

Lemma loggedGamesParams_getProp filters name :
  name ∈ Timeline.filterNames ->
  getProp (Timeline.loggedGamesParams filters) name
  = Timeline.filterProp filters name.
Proof.
  unfold Timeline.filterNames. intros Hname.
  repeat (apply elem_of_cons in Hname as [->|Hname];
          [unfold Timeline.loggedGamesParams;
           by rewrite ?getProp_insert_ne, getProp_insert_eq by done|]).
  by apply elem_of_nil in Hname.
Qed.

(** X6: the filters handed to the logged-games query.  After any
    sequence of changes and clears each of the seven parameters is a
    string, never undefined; a change sets the parameter of its name to
    the new value and leaves the other parameters alone; a change under
    a name that is not one of the seven leaves all parameters alone; and
    a clear makes every parameter the empty string. *)
Theorem filter_params_follow_changes evs :
  let params evs' := Timeline.loggedGamesParams (Timeline.filterRun evs') in
  (forall name, name ∈ Timeline.filterNames ->
                exists value, getProp (params evs) name = VStr value)
  /\ (forall key value name,
        name ∈ Timeline.filterNames ->
        getProp (params (evs ++ [Timeline.Change key value])) name
        = if decide (name = key) then VStr value
          else getProp (params evs) name)
  /\ (forall key value,
        key ∉ Timeline.filterNames ->
        params (evs ++ [Timeline.Change key value]) = params evs)
  /\ (forall name, name ∈ Timeline.filterNames ->
                   getProp (params (evs ++ [Timeline.Clear])) name = VStr []).
Proof.
  intros params. unfold params, Timeline.filterRun.
  assert (Hstep : forall key value name,
             Timeline.filterProp
               (foldl Timeline.filterStep Timeline.initialFilters
                  (evs ++ [Timeline.Change key value])) name
             = if decide (name = key) then VStr value
               else Timeline.filterProp
                      (foldl Timeline.filterStep Timeline.initialFilters evs) name).
  { intros key value name. rewrite foldl_app. simpl.
    unfold Timeline.filterProp, Timeline.handleFilterChange.
    rewrite lookup_insert.
    destruct (decide (key = name)) as [->|Hne].
    - by rewrite decide_True.
    - by rewrite decide_False by congruence. }
  repeat apply conj.
  - intros name Hname. rewrite loggedGamesParams_getProp by done.
    unfold Timeline.filterProp.
    destruct (filterRun_names Timeline.initialFilters evs name Hname) as [value ->].
    + unfold Timeline.filterNames in Hname.
      repeat (apply elem_of_cons in Hname as [->|Hname]; [vm_compute; eauto|]).
      by apply elem_of_nil in Hname.
    + eauto.
  - intros key value name Hname.
    rewrite !loggedGamesParams_getProp by done. apply Hstep.
  - intros key value Hkey. unfold Timeline.loggedGamesParams.
    rewrite !Hstep.
    assert (forall name, name ∈ Timeline.filterNames -> name <> key)
      as Hne by (intros name Hname ->; done).
    rewrite !decide_False; [done|..]; apply Hne;
      unfold Timeline.filterNames; set_solver.
  - intros name Hname. rewrite loggedGamesParams_getProp by done.
    rewrite foldl_app. simpl. unfold Timeline.handleClearFilters.
    unfold Timeline.filterNames in Hname.
    repeat (apply elem_of_cons in Hname as [->|Hname]; [reflexivity|]).
    by apply elem_of_nil in Hname.
Qed.

(** The theorem after the league has been set, something typed into the
    search box, and a change under an unknown name. *)
Lemma filter_params_follow_changes_witness :
  Timeline.loggedGamesParams
    (Timeline.filterRun
       ([Timeline.Change "league" (lit "AL"); Timeline.Change "search" (lit "sox")]
        ++ [Timeline.Change "colour" (lit "red")]))
  = Timeline.loggedGamesParams
      (Timeline.filterRun
         [Timeline.Change "league" (lit "AL"); Timeline.Change "search" (lit "sox")]).
Proof.
  destruct (filter_params_follow_changes
              [Timeline.Change "league" (lit "AL");
               Timeline.Change "search" (lit "sox")]) as (_ & _ & H & _).
  apply H. unfold Timeline.filterNames.
  repeat (apply not_elem_of_cons; split; [done|]). apply not_elem_of_nil.
Defined.

End View.
